(** * fish-docker-completion: the command-tree builder of [cmd/cmd.go]

    A shallow embedding of [Forge] and of the helpers it is made of
    ([scanHelpMessage], [splitDescription], [setArgument], [setOptions],
    [setSubcommands]), followed by the properties of the tree builder.

    Conventions of the embedding.
    - A Go [string] is a Rocq [string]: a sequence of bytes.  Slicing
      ([s[:i]], [s[i:]]) is by byte offset and panics out of range.
    - A Go [map] is a [gmap].  A [range] over a map visits its entries in
      an order Go leaves unspecified: every function with such a loop takes
      the visiting order as an argument [ρ] that rearranges the entry list
      of the map ([RangeOrder]); the loop bodies are folds over the visited
      sequence, so that their lemmas hold for every permutation.
    - [exec.Command(...).Output()] is an oracle [exec] from the argument
      vector to the captured standard output or a failure.
    - A run-time panic and the exhaustion of the recursion fuel are the two
      extra constructors of [outcome]. *)

From Stdlib Require Import ZArith NArith Ascii String List Permutation Lia.
From stdpp Require Import base option list gmap strings fin_maps sorting.

Local Open Scope nat_scope.

(** ** Bytes and character classes *)

Definition byte_of (a : ascii) : N := N_of_ascii a.

Definition between (lo hi : N) (a : ascii) : bool :=
  ((lo <=? byte_of a) && (byte_of a <=? hi))%N.

(** [A-Z] *)
Definition isUpper (a : ascii) : bool := between 65 90 a.
(** [a-z] *)
Definition isLower (a : ascii) : bool := between 97 122 a.
Definition isUnderscore (a : ascii) : bool := (byte_of a =? 95)%N.

(** The character class of the pattern [[A-Z_]+]. *)
Definition upperClass (a : ascii) : bool := isUpper a || isUnderscore a.
(** The character class of the pattern [[a-z_]+]. *)
Definition lowerClass (a : ascii) : bool := isLower a || isUnderscore a.

(** [\s] of Go's [regexp] (RE2 syntax): tab, newline, form feed, carriage
    return and space; the vertical tab is not in the class. *)
Definition isRegexpSpace (a : ascii) : bool :=
  let b := byte_of a in
  ((b =? 9) || (b =? 10) || (b =? 12) || (b =? 13) || (b =? 32))%N.

(** The one-byte white space of [unicode.IsSpace]. *)
Definition isAsciiSpace (a : ascii) : bool :=
  let b := byte_of a in
  ((b =? 9) || (b =? 10) || (b =? 11) || (b =? 12) || (b =? 13) || (b =? 32))%N.

(** ** The functions of package [strings] *)

Definition HasPrefix (s p : string) : bool := String.prefix p s.

Fixpoint dropBytes (n : nat) (s : string) : string :=
  match n, s with
  | O, _ => s
  | S _, EmptyString => EmptyString
  | S n', String _ s' => dropBytes n' s'
  end.

Fixpoint takeBytes (n : nat) (s : string) : string :=
  match n, s with
  | O, _ => EmptyString
  | S _, EmptyString => EmptyString
  | S n', String a s' => String a (takeBytes n' s')
  end.

(** [strings.TrimPrefix]: [s] without the leading [p], or [s] itself when
    [p] is not a prefix of it. *)
Definition TrimPrefix (s p : string) : string :=
  if HasPrefix s p then dropBytes (String.length p) s else s.

Definition HasSuffix (s p : string) : bool :=
  (String.length p <=? String.length s) &&
  String.eqb (dropBytes (String.length s - String.length p) s) p.

(** [strings.TrimSuffix]. *)
Definition TrimSuffix (s p : string) : string :=
  if HasSuffix s p then takeBytes (String.length s - String.length p) s else s.

(** [strings.Join]. *)
Definition Join (elems : list string) (sep : string) : string :=
  String.concat sep elems.

(** [strings.Split(s, " ")]: the fields between single spaces; consecutive
    spaces give empty fields and the empty string gives one empty field. *)
Fixpoint splitOn (sep : ascii) (s : string) (cur : string) : list string :=
  match s with
  | EmptyString => [cur]
  | String a s' =>
      if Ascii.eqb a sep then cur :: splitOn sep s' EmptyString
      else splitOn sep s' (cur +:+ String a EmptyString)
  end.

Definition SplitSpace (s : string) : list string :=
  splitOn " "%char s EmptyString.

(** [strings.TrimSpace] removes the leading and the trailing runes that
    satisfy [unicode.IsSpace].  On the UTF-8 bytes of the string these are
    the six one-byte characters of [isAsciiSpace] and the encodings of
    U+0085, U+00A0 (two bytes) and of U+1680, U+2000..U+200A, U+2028,
    U+2029, U+202F, U+205F, U+3000 (three bytes). *)
Definition isSpace2 (a b : ascii) : bool :=
  ((byte_of a =? 194) && ((byte_of b =? 133) || (byte_of b =? 160)))%N.

Definition isSpace3 (a b c : ascii) : bool :=
  let x := byte_of a in
  let y := byte_of b in
  let z := byte_of c in
  (((x =? 225) && (y =? 154) && (z =? 128))
   || ((x =? 226) && (y =? 128)
       && (((128 <=? z) && (z <=? 138)) || (z =? 168) || (z =? 169) || (z =? 175)))
   || ((x =? 226) && (y =? 129) && (z =? 159))
   || ((x =? 227) && (y =? 128) && (z =? 128)))%N.

Fixpoint trimLeftSpace (s : string) : string :=
  match s with
  | EmptyString => EmptyString
  | String a s1 =>
      if isAsciiSpace a then trimLeftSpace s1
      else
        match s1 with
        | EmptyString => s
        | String b s2 =>
            if isSpace2 a b then trimLeftSpace s2
            else
              match s2 with
              | EmptyString => s
              | String c s3 => if isSpace3 a b c then trimLeftSpace s3 else s
              end
        end
  end.

(** The encodings of the white-space runes are suffix-free, so the bytes
    removed at the end are the longest suffix made of such encodings. *)
Fixpoint trimRightSpace (s : string) : string :=
  match s with
  | EmptyString => EmptyString
  | String a s' =>
      match trimLeftSpace s with
      | EmptyString => EmptyString
      | _ => String a (trimRightSpace s')
      end
  end.

Definition TrimSpace (s : string) : string := trimRightSpace (trimLeftSpace s).

(** ** The two uses of package [regexp] *)

(** [regexp.MustCompile(cls+).FindAllString(s, -1)] for a one-class pattern:
    the maximal runs of characters of the class, from left to right. *)
Fixpoint findRuns (cls : ascii -> bool) (s : string) (cur : string) : list string :=
  match s with
  | EmptyString => match cur with EmptyString => [] | _ => [cur] end
  | String a s' =>
      if cls a then findRuns cls s' (cur +:+ String a EmptyString)
      else
        match cur with
        | EmptyString => findRuns cls s' EmptyString
        | _ => cur :: findRuns cls s' EmptyString
        end
  end.

Definition FindAllString (cls : ascii -> bool) (s : string) : list string :=
  findRuns cls s EmptyString.

(** [regexp.MustCompile(`\s[A-Z]`).FindAllIndex([]byte(line), -1)], keeping
    of every match [tuple] its start [tuple[0]]: the offsets [i] with a
    white-space byte at [i] and an upper-case letter at [i+1].  The search
    resumes after the two bytes of a match. *)
Fixpoint descHeadMatches (s : string) (i : nat) : list nat :=
  match s with
  | String a ((String b s2) as s1) =>
      if isRegexpSpace a && isUpper b then i :: descHeadMatches s2 (S (S i))
      else descHeadMatches s1 (S i)
  | _ => []
  end.

(** [blankPattern.MatchString(line)] for the pattern [^\s*$]. *)
Fixpoint isBlank (s : string) : bool :=
  match s with
  | EmptyString => true
  | String a s' => isRegexpSpace a && isBlank s'
  end.

(** ** [bufio.Scanner] over the help message *)

Definition newline : ascii := "010"%char.
Definition carriageReturn : ascii := "013"%char.

(** [bufio.MaxScanTokenSize]: a line of that many bytes or more makes
    [scanner.Scan] return false, which ends the loop of [scanHelpMessage]. *)
Definition MaxScanTokenSize : N := 65536.

Definition tooLong (line : string) : bool :=
  (MaxScanTokenSize <=? N.of_nat (String.length line))%N.

(** [dropCR] of [bufio.ScanLines]. *)
Definition dropCR (line : string) : string :=
  TrimSuffix line (String carriageReturn EmptyString).

(** The successive values of [scanner.Text()]; [cur] holds the bytes of the
    line being read. *)
Fixpoint scanLinesFrom (s : string) (cur : string) : list string :=
  match s with
  | EmptyString =>
      match cur with
      | EmptyString => []
      | _ => if tooLong cur then [] else [dropCR cur]
      end
  | String a s' =>
      if Ascii.eqb a newline then
        if tooLong cur then [] else dropCR cur :: scanLinesFrom s' EmptyString
      else scanLinesFrom s' (cur +:+ String a EmptyString)
  end.

Definition scannerLines (msg : string) : list string := scanLinesFrom msg EmptyString.

Definition nl : string := String newline EmptyString.

(** A text made of the given lines, each ended by a newline. *)
Definition unlines (ls : list string) : string :=
  fold_right (fun l acc => l +:+ nl +:+ acc) EmptyString ls.

(** ** Control: panics, fuel and the order of [range] *)

Inductive outcome (A : Type) : Type :=
  | Ret (a : A)      (* the call returned [a] *)
  | Panic            (* run-time panic: slice bounds out of range *)
  | OutOfFuel.       (* the recursion bound of the model was reached *)
Arguments Ret {A} a.
Arguments Panic {A}.
Arguments OutOfFuel {A}.

#[global] Instance outcome_ret : MRet outcome := fun A a => Ret a.
#[global] Instance outcome_bind : MBind outcome := fun A B f m =>
  match m with
  | Ret a => f a
  | Panic => Panic
  | OutOfFuel => OutOfFuel
  end.

(** The visiting order of a [range] over a map. *)
Definition RangeOrder : Type := ∀ A : Type, list A → list A.

Definition range_ok (ρ : RangeOrder) : Prop := ∀ (A : Type) (l : list A), ρ A l ≡ₚ l.

Definition inOrder : RangeOrder := fun A l => l.
Definition backwards : RangeOrder := fun A l => reverse l.

(** [for k, v := range m]: the entries of [m] as the loop visits them. *)
Definition rangeMap `{Countable K} {V : Type} (ρ : RangeOrder) (m : gmap K V) : list (K * V) :=
  ρ (K * V)%type (map_to_list m).

(** [m[k] = append(m[k], x)] *)
Definition appendAt {V : Type} (m : gmap string (list V)) (k : string) (x : V)
  : gmap string (list V) :=
  <[k := default [] (m !! k) ++ [x]]> m.

(** ** [scanHelpMessage] *)

(** The inner [for _, marker := range markers] up to its [break]: the first
    marker that is a prefix of the line. *)
Fixpoint hitMarker (markers : list string) (line : string) : option string :=
  match markers with
  | [] => None
  | marker :: rest => if HasPrefix line marker then Some marker else hitMarker rest line
  end.

(** The state of the loop: [currentMarker] (the empty string when there is
    none) and [linesMap]. *)
Definition scanState : Type := (string * gmap string (list string))%type.

Definition scanStep (markers : list string) (st : scanState) (line : string) : scanState :=
  let '(currentMarker, linesMap) := st in
  if isBlank line then (EmptyString, linesMap)
  else
    match hitMarker markers line with
    | Some marker =>
        let trailer := TrimPrefix line marker in
        if String.eqb (TrimSpace trailer) EmptyString then (marker, linesMap)
        else (marker, appendAt linesMap marker trailer)
    | None =>
        if String.eqb currentMarker EmptyString then (currentMarker, linesMap)
        else (currentMarker, appendAt linesMap currentMarker line)
    end.

Definition scanFrom (markers : list string) (st : scanState) (lines : list string) : scanState :=
  foldl (scanStep markers) st lines.

Definition scanHelpMessage (helpMessage : string) (markers : list string)
  : gmap string (list string) :=
  snd (scanFrom markers (EmptyString, ∅) (scannerLines helpMessage)).

(** ** [splitDescription] *)

(** [descHeadIndices[k]++] *)
Definition bump (m : gmap nat nat) (k : nat) : gmap nat nat :=
  <[k := S (default 0 (m !! k))]> m.

(** The first loop over the lines of a group: the votes of every column. *)
Definition tallyLine (m : gmap nat nat) (line : string) : gmap nat nat :=
  foldl (fun m i => bump m (i + 1)) m (descHeadMatches line 0).

Definition descHeadIndices (lines : list string) : gmap nat nat :=
  foldl tallyLine ∅ lines.

(** The loop [for k, v := range descHeadIndices] over the visited entries:
    the state is [(descHeadIndex, votes)], initially zero. *)
Definition pickStep (st : nat * nat) (kv : nat * nat) : nat * nat :=
  if snd st <? snd kv then (fst kv, snd kv) else st.

Definition pickFrom (st : nat * nat) (entries : list (nat * nat)) : nat * nat :=
  foldl pickStep st entries.

Definition pickDescHead (entries : list (nat * nat)) : nat :=
  fst (pickFrom (0, 0) entries).

(** [[...]string{line[:i], line[i:]}]: both slices panic when [i] exceeds
    the length of the line. *)
Definition sliceAt (i : nat) (line : string) : outcome (string * string) :=
  if i <=? String.length line then Ret (takeBytes i line, dropBytes i line)
  else Panic.

(** The last loop over the lines of a group, appending to [pairsMap[key]]. *)
Fixpoint splitLines (i : nat) (key : string) (lines : list string)
    (pairsMap : gmap string (list (string * string)))
  : outcome (gmap string (list (string * string))) :=
  match lines with
  | [] => Ret pairsMap
  | line :: rest =>
      pr ← sliceAt i line;
      splitLines i key rest (appendAt pairsMap key pr)
  end.

(** The column chosen for a group. *)
Definition descHeadIndexOf (ρ : RangeOrder) (lines : list string) : nat :=
  pickDescHead (rangeMap ρ (descHeadIndices lines)).

Fixpoint splitGroups (ρ : RangeOrder) (groups : list (string * list string))
    (pairsMap : gmap string (list (string * string)))
  : outcome (gmap string (list (string * string))) :=
  match groups with
  | [] => Ret pairsMap
  | (key, lines) :: rest =>
      pairsMap' ← splitLines (descHeadIndexOf ρ lines) key lines pairsMap;
      splitGroups ρ rest pairsMap'
  end.

Definition splitDescription (ρ : RangeOrder) (linesMap : gmap string (list string))
  : outcome (gmap string (list (string * string))) :=
  splitGroups ρ (rangeMap ρ linesMap) ∅.

(** ** The data model *)

Module Option.
Record t : Type := Build { Desc : string; Long : string; Short : string }.
End Option.

#[warnings="-register-all"] Inductive Command : Type := mkCommand {
  Chain : list string;
  Desc : string;
  Arguments : Z;
  Options : list Option.t;
  Subcommands : list Command;
  helpMessage : string
}.

Inductive error : Type :=
  | ExecError (detail : string)       (* the error of [exec.Cmd.Output] *)
  | OptionsError (chain : string)     (* [failed to options for %q] *)
  | SubcommandsError (chain : string). (* [failed to subcommands of %q] *)

(** The constants [ArgumentNumberDocker...]: [1 << iota]. *)
Definition ArgumentNumberDockerConfig : Z := Z.shiftl 1 0.
Definition ArgumentNumberDockerContainer : Z := Z.shiftl 1 1.
Definition ArgumentNumberDockerImage : Z := Z.shiftl 1 2.
Definition ArgumentNumberDockerNetwork : Z := Z.shiftl 1 3.
Definition ArgumentNumberDockerNode : Z := Z.shiftl 1 4.
Definition ArgumentNumberDockerPlugin : Z := Z.shiftl 1 5.
Definition ArgumentNumberDockerSecret : Z := Z.shiftl 1 6.
Definition ArgumentNumberDockerService : Z := Z.shiftl 1 7.
Definition ArgumentNumberDockerStack : Z := Z.shiftl 1 8.
Definition ArgumentNumberDockerVolume : Z := Z.shiftl 1 9.
Definition ArgumentNumberFile : Z := Z.shiftl 1 10.

Definition ChainString (c : Command) : string := Join (Chain c) " ".

Definition withArguments (c : Command) (number : Z) : Command :=
  mkCommand (Chain c) (Desc c) number (Options c) (Subcommands c) (helpMessage c).
Definition withOptions (c : Command) (opts : list Option.t) : Command :=
  mkCommand (Chain c) (Desc c) (Arguments c) opts (Subcommands c) (helpMessage c).
Definition withSubcommands (c : Command) (subs : list Command) : Command :=
  mkCommand (Chain c) (Desc c) (Arguments c) (Options c) subs (helpMessage c).
Definition withDesc (c : Command) (desc : string) : Command :=
  mkCommand (Chain c) desc (Arguments c) (Options c) (Subcommands c) (helpMessage c).

(** ** [setArgument] *)

Definition oneOf (s : string) (cases : list string) : bool :=
  existsb (String.eqb s) cases.

(** The [switch] over a match of [[A-Z_]+]. *)
Definition upperCase (number : Z) (m : string) : Z :=
  if oneOf m ["CONFIG"] then Z.lor number ArgumentNumberDockerConfig
  else if oneOf m ["CONTAINER"] then Z.lor number ArgumentNumberDockerContainer
  else if oneOf m ["IMAGE"; "SOURCE_IMAGE"; "TARGET_IMAGE"] then Z.lor number ArgumentNumberDockerImage
  else if oneOf m ["NETWORK"] then Z.lor number ArgumentNumberDockerNetwork
  else if oneOf m ["NODE"] then Z.lor number ArgumentNumberDockerNode
  else if oneOf m ["PLUGIN"] then Z.lor number ArgumentNumberDockerPlugin
  else if oneOf m ["SECRET"] then Z.lor number ArgumentNumberDockerSecret
  else if oneOf m ["SERVICE"] then Z.lor number ArgumentNumberDockerService
  else if oneOf m ["STACK"] then Z.lor number ArgumentNumberDockerStack
  else if oneOf m ["VOLUME"] then Z.lor number ArgumentNumberDockerVolume
  else if oneOf m ["KEY_FILE"] then Z.lor number ArgumentNumberFile
  else number.

(** The [switch] over a match of [[a-z_]+]. *)
Definition lowerCase (number : Z) (m : string) : Z :=
  if oneOf m ["file"] then Z.lor number ArgumentNumberFile else number.

(** The body of the loop over the usage lines, after the prefix test. *)
Definition classifyTrimmed (number : Z) (trimmed : string) : Z :=
  foldl lowerCase (foldl upperCase number (FindAllString upperClass trimmed))
        (FindAllString lowerClass trimmed).

(** The loop over the usage lines: [None] is the [return] from inside the
    loop, which leaves [c.Arguments] as it was. *)
Fixpoint classifyLines (chainString : string) (lines : list string) (number : Z) : option Z :=
  match lines with
  | [] => Some number
  | line :: rest =>
      let line := TrimSpace line in
      let trimmed := TrimPrefix line chainString in
      if String.eqb trimmed line then None
      else classifyLines chainString rest (classifyTrimmed number trimmed)
  end.

(** [for _, v := range linesMap { lines = v; break }] *)
Definition firstGroup (ρ : RangeOrder) (linesMap : gmap string (list string)) : list string :=
  match rangeMap ρ linesMap with
  | [] => []
  | (_, v) :: _ => v
  end.

Definition usageLines (ρ : RangeOrder) (c : Command) : list string :=
  firstGroup ρ (scanHelpMessage (helpMessage c) ["Usage:"]).

Definition setArgument (ρ : RangeOrder) (c : Command) : Command :=
  match classifyLines (ChainString c) (usageLines ρ c) 0 with
  | None => c
  | Some number => withArguments c number
  end.

(** ** [setOptions] *)

(** [for _, v := range pairsMap { pairs = append(pairs, v...) }] *)
Definition collectPairs (ρ : RangeOrder) (pairsMap : gmap string (list (string * string)))
  : list (string * string) :=
  concat (rangeMap ρ pairsMap).*2.

(** The loop over the fields of the name column: [(long, short)]. *)
Definition flagStep (ls : string * string) (flag : string) : string * string :=
  let flag := TrimSuffix flag "," in
  if HasPrefix flag "--" then (TrimPrefix flag "--", snd ls)
  else if HasPrefix flag "-" then (fst ls, TrimPrefix flag "-")
  else ls.

Definition parseFlags (opt : string) : string * string :=
  foldl flagStep (EmptyString, EmptyString) (SplitSpace opt).

(** [l[len(l)-1] = f(l[len(l)-1])] on a non-empty list. *)
Fixpoint updateLast {A : Type} (f : A → A) (l : list A) : list A :=
  match l with
  | [] => []
  | [x] => [f x]
  | x :: rest => x :: updateLast f rest
  end.

Definition appendOptionDesc (desc : string) (o : Option.t) : Option.t :=
  Option.Build (Option.Desc o +:+ " " +:+ desc) (Option.Long o) (Option.Short o).

(** The loop over the pairs; the state is [c.Options]. *)
Fixpoint optionsLoop (chainString : string) (pairs : list (string * string))
    (options : list Option.t) : list Option.t * option error :=
  match pairs with
  | [] => (options, None)
  | pr :: rest =>
      let opt := TrimSpace (fst pr) in
      let desc := TrimSpace (snd pr) in
      let '(long, short) := parseFlags opt in
      if String.eqb opt EmptyString then
        match options with
        | [] => (options, Some (OptionsError chainString))
        | _ => optionsLoop chainString rest (updateLast (appendOptionDesc desc) options)
        end
      else optionsLoop chainString rest (options ++ [Option.Build desc long short])
  end.

Definition optionPairs (ρ : RangeOrder) (c : Command) : outcome (list (string * string)) :=
  pairsMap ← splitDescription ρ (scanHelpMessage (helpMessage c) ["Options:"]);
  mret (collectPairs ρ pairsMap).

Definition setOptions (ρ : RangeOrder) (c : Command) : outcome (Command * option error) :=
  pairs ← optionPairs ρ c;
  let '(options, err) := optionsLoop (ChainString c) pairs (Options c) in
  mret (withOptions c options, err).

(** ** [setSubcommands] and [Forge] *)

Inductive output : Type :=
  | Output (msg : string)      (* the captured standard output *)
  | Failed (detail : string).  (* the process did not start or exited non-zero *)

(** What [Forge] returns: the pair [(c, err)], each possibly [nil]. *)
Definition forged : Type := (option Command * option error)%type.

Definition appendCommandDesc (desc : string) (sc : Command) : Command :=
  withDesc sc (Desc sc +:+ " " +:+ desc).

(** The loop over the pairs; the state is [c.Subcommands].  [forge] is the
    recursive call.  It never returns a nil node without an error
    ([Forge_node_or_error] below); the model lets that case panic. *)
Fixpoint subcommandsLoop (forge : string → list string → string → outcome forged)
    (chain : list string) (chainString : string) (pairs : list (string * string))
    (subcommands : list Command) : outcome (list Command * option error) :=
  match pairs with
  | [] => Ret (subcommands, None)
  | pr :: rest =>
      let cmd := TrimSpace (fst pr) in
      let desc := TrimSpace (snd pr) in
      if String.eqb cmd EmptyString then
        match subcommands with
        | [] => Ret (subcommands, Some (SubcommandsError chainString))
        | _ => subcommandsLoop forge chain chainString rest
                 (updateLast (appendCommandDesc desc) subcommands)
        end
      else
        r ← forge cmd chain desc;
        match r with
        | (_, Some err) => Ret (subcommands, Some err)
        | (Some subcommand, None) =>
            subcommandsLoop forge chain chainString rest (subcommands ++ [subcommand])
        | (None, None) => Panic
        end
  end.

Definition subcommandMarkers : list string :=
  ["Commands:"; "Available Commands:"; "Management Commands:"].

Definition subcommandPairs (ρ : RangeOrder) (c : Command) : outcome (list (string * string)) :=
  pairsMap ← splitDescription ρ (scanHelpMessage (helpMessage c) subcommandMarkers);
  mret (collectPairs ρ pairsMap).

Definition setSubcommands (ρ : RangeOrder)
    (forge : string → list string → string → outcome forged) (c : Command)
  : outcome (Command * option error) :=
  pairs ← subcommandPairs ρ c;
  r ← subcommandsLoop forge (Chain c) (ChainString c) pairs (Subcommands c);
  mret (withSubcommands c (fst r), snd r).

(** [c = &Command{}] followed by the three assignments of [Forge]. *)
Definition newCommand (arg : list string) (desc msg : string) : Command :=
  mkCommand arg desc 0 [] [] msg.

Section Forge.
(** [exec.Command(arg[0], arg[1:]...).Output()] *)
Variable exec : list string → output.
Variable ρ : RangeOrder.

Fixpoint Forge (fuel : nat) (cmd : string) (chain : list string) (desc : string)
  : outcome forged :=
  match fuel with
  | O => OutOfFuel
  | S fuel' =>
      let arg := chain ++ [cmd] ++ ["--help"] in
      match exec arg with
      | Failed detail => Ret (None, Some (ExecError detail))
      | Output msg =>
          let arg := removelast arg in
          let c := newCommand arg desc msg in
          let c := setArgument ρ c in
          r ← setOptions ρ c;
          match r with
          | (c, Some err) => Ret (Some c, Some err)
          | (c, None) =>
              r ← setSubcommands ρ (Forge fuel') c;
              Ret (Some (fst r), snd r)
          end
      end
  end.
End Forge.

(** * Definitions used by the statements *)


(** Appending a whole list to one entry of a map, one element at a time. *)
Definition appendAll {V : Type} (m : gmap string (list V)) (k : string) (xs : list V)
  : gmap string (list V) :=
  foldl (fun m x => appendAt m k x) m xs.

(** The pair a line is cut into at column [i]. *)
Definition cutAt (i : nat) (line : string) : string * string :=
  (takeBytes i line, dropBytes i line).

(** The pairs of a whole group, cut at the column the group votes for. *)
Definition cutGroup (ρ : RangeOrder) (lines : list string) : list (string * string) :=
  cutAt (descHeadIndexOf ρ lines) <$> lines.

(** No line of the group is shorter than the chosen column. *)
Definition fitsColumn (i : nat) (lines : list string) : bool :=
  forallb (fun line => i <=? String.length line) lines.

(** A line of the body of a section: not blank and without marker. *)
Definition isBodyLine (markers : list string) (line : string) : bool :=
  negb (isBlank line) && bool_decide (hitMarker markers line = None).

(** A header line of [marker] with nothing but white space after it. *)
Definition isHeaderOf (markers : list string) (marker line : string) : bool :=
  negb (isBlank line) && bool_decide (hitMarker markers line = Some marker)
  && String.eqb (TrimSpace (TrimPrefix line marker)) EmptyString.

(** The line a group element was taken from: the line itself, or the line
    of the marker, of which the group holds what follows the marker. *)
Definition takenFrom (marker : string) (g line : string) : Prop :=
  g = line ∨ g = TrimPrefix line marker.

(** Every byte of [s] is in the class. *)
Fixpoint allIn (cls : ascii → bool) (s : string) : bool :=
  match s with
  | EmptyString => true
  | String a s' => cls a && allIn cls s'
  end.

(** The first byte of [s] exists and is in the class. *)
Definition firstIn (cls : ascii → bool) (s : string) : bool :=
  match s with
  | EmptyString => false
  | String a _ => cls a
  end.

(** The last byte of [s] exists and is in the class. *)
Fixpoint lastIn (cls : ascii → bool) (s : string) : bool :=
  match s with
  | EmptyString => false
  | String a EmptyString => cls a
  | String _ s' => lastIn cls s'
  end.


(** The keywords of the usage line and the argument kind each stands for,
    as the two [switch] statements of [setArgument] list them: the
    keywords looked for among the matches of [[A-Z_]+] ... *)
Definition upperKeywords : list (string * Z) :=
  [ ("CONFIG", ArgumentNumberDockerConfig);
    ("CONTAINER", ArgumentNumberDockerContainer);
    ("IMAGE", ArgumentNumberDockerImage);
    ("SOURCE_IMAGE", ArgumentNumberDockerImage);
    ("TARGET_IMAGE", ArgumentNumberDockerImage);
    ("NETWORK", ArgumentNumberDockerNetwork);
    ("NODE", ArgumentNumberDockerNode);
    ("PLUGIN", ArgumentNumberDockerPlugin);
    ("SECRET", ArgumentNumberDockerSecret);
    ("SERVICE", ArgumentNumberDockerService);
    ("STACK", ArgumentNumberDockerStack);
    ("VOLUME", ArgumentNumberDockerVolume);
    ("KEY_FILE", ArgumentNumberFile) ].

(** ... and the one looked for among the matches of [[a-z_]+]. *)
Definition lowerKeywords : list (string * Z) :=
  [ ("file", ArgumentNumberFile) ].

(** The flag a table gives a match, if any. *)
Fixpoint flagOf (table : list (string * Z)) (m : string) : option Z :=
  match table with
  | [] => None
  | (kw, flag) :: rest => if String.eqb m kw then Some flag else flagOf rest m
  end.

(** A [switch] that ors the flag of a table into [number]. *)
Definition orFlag (table : list (string * Z)) (number : Z) (m : string) : Z :=
  match flagOf table m with
  | Some flag => Z.lor number flag
  | None => number
  end.

(** A table of non-empty keywords of one class, without repetition, whose
    flags are single bits. *)
Definition tableOk (cls : ascii → bool) (table : list (string * Z)) : Prop :=
  NoDup table.*1
  ∧ Forall (fun e => e.1 ≠ EmptyString ∧ allIn cls e.1 = true
                     ∧ ∃ i : Z, (0 ≤ i)%Z ∧ e.2 = Z.shiftl 1 i) table.



(** The pairs that open an entry: those with a name. *)
Definition entriesOf (pairs : list (string * string)) : list (string * string) :=
  filter (fun p => TrimSpace p.1 ≠ EmptyString) pairs.

(** The names of an option, as [setOptions] reads them off a pair. *)
Definition optionNames (p : string * string) : string * string :=
  parseFlags (TrimSpace p.1).

(** The chain of the subcommand [setSubcommands] forges from a pair. *)
Definition subcommandChain (arg : list string) (p : string * string) : list string :=
  arg ++ [TrimSpace p.1].

(** The lines of the group of a marker, none if the map has no such key. *)
Definition groupOf (msg : string) (markers : list string) (marker : string) : list string :=
  default [] (scanHelpMessage msg markers !! marker).

(** ** Help texts of the scenarios *)

(** A process that prints the help text listed for its argument vector and
    fails on any other. *)
Fixpoint answers (replies : list (list string * string)) (arg : list string) : output :=
  match replies with
  | [] => Failed "exit status 1"
  | (arg', msg) :: rest => if decide (arg = arg') then Output msg else answers rest arg
  end.

(** Scenario A. *)
Definition helpRm : string :=
  unlines [ "Usage:  docker rm CONTAINER [CONTAINER...]";
            "";
            "Options:";
            "-f, --force    Force the removal" ].

Definition execRm : list string → output :=
  answers [ (["docker"; "rm"; "--help"], helpRm) ].

(** Scenario B, with a help text for each of the two subcommands. *)
Definition helpNetwork : string :=
  unlines [ "Usage:  docker network COMMAND";
            "";
            "Commands:";
            "connect  Connect a container to a network";
            "create   Create a network" ].

Definition helpConnect : string :=
  unlines [ "Usage:  docker network connect NETWORK CONTAINER" ].

Definition helpCreate : string :=
  unlines [ "Usage:  docker network create NETWORK" ].

Definition execNetwork : list string → output :=
  answers [ (["docker"; "network"; "--help"], helpNetwork);
            (["docker"; "network"; "connect"; "--help"], helpConnect);
            (["docker"; "network"; "create"; "--help"], helpCreate) ].

(** Scenario C: the continuation line is shorter than the column of the
    descriptions. *)
Definition helpContinued : string :=
  unlines [ "Options:";
            "-h, --help    Print usage";
            "  information" ].

Definition execContinued : list string → output :=
  answers [ (["docker"; "--help"], helpContinued) ].

(** Scenario C with the continuation line indented to the column of the
    descriptions. *)
Definition helpContinuedAligned : string :=
  unlines [ "Options:";
            "-h, --help    Print usage";
            "              information" ].

(** Scenario D: a continuation line before any option. *)
Definition helpContinuationFirst : string :=
  unlines [ "Options:";
            "              Continued text";
            "-h, --help    Print usage" ].

Definition execContinuationFirst : list string → output :=
  answers [ (["docker"; "--help"], helpContinuationFirst) ].

(** Two subcommand sections, as [docker --help] prints them. *)
Definition helpTwoSections : string :=
  unlines [ "Management Commands:";
            "  builder     Manage builds";
            "";
            "Commands:";
            "  run         Run a command" ].

Definition helpLeaf : string := unlines [ "Usage:  docker COMMAND" ].

Definition execTwoSections : list string → output :=
  answers [ (["docker"; "--help"], helpTwoSections);
            (["docker"; "builder"; "--help"], helpLeaf);
            (["docker"; "run"; "--help"], helpLeaf) ].

(** Two subcommand sections, the first of the text opening with a
    continuation line. *)
Definition helpSectionOpensContinued : string :=
  unlines [ "Management Commands:";
            "              Continued text";
            "  builder     Manage builds";
            "";
            "Commands:";
            "  run         Run a command" ].

Definition execSectionOpensContinued : list string → output :=
  answers [ (["docker"; "--help"], helpSectionOpensContinued);
            (["docker"; "builder"; "--help"], helpLeaf);
            (["docker"; "run"; "--help"], helpLeaf) ].

(** The same marker twice, a blank line in between. *)
Definition helpMarkerTwice : string :=
  unlines [ "Options:";
            "-a  Alpha";
            "";
            "stray line";
            "Options:";
            "-b  Beta" ].

(** A usage section of two lines, the second without the chain. *)
Definition helpForeignUsage : string :=
  unlines [ "Usage:  docker rm CONTAINER";
            "  podman rm IMAGE" ].

Definition execForeignUsage : list string → output :=
  answers [ (["docker"; "rm"; "--help"], helpForeignUsage) ].

(** ** [Completion], and [traverse] and [main] of [main.go] *)

Record Argument : Type := mkArgument { ArgumentType : string; ArgumentCommand : string }.

(** The map [Arguments] of the package (the name is taken by the field of
    [Command]). *)
Definition ArgumentsMap : gmap Z Argument :=
  list_to_map
    [ (ArgumentNumberDockerConfig, mkArgument "Config" "(docker config ls)");
      (ArgumentNumberDockerContainer,
        mkArgument "Container" "(docker container ls --all --format='{{.Names}}')");
      (ArgumentNumberDockerImage,
        mkArgument "Image" "(docker image ls --format='{{.Repository}}:{{.Tag}}')");
      (ArgumentNumberDockerNetwork, mkArgument "Network" "(docker network ls --format='{{.Name}}')");
      (ArgumentNumberDockerNode, mkArgument "Node" "(docker node ls --format='{{.Name}}')");
      (ArgumentNumberDockerPlugin, mkArgument "Plugin" "(docker plugin ls --format='{{.Name}}')");
      (ArgumentNumberDockerSecret, mkArgument "Secret" "(docker secret ls --format='{{.Name}}')");
      (ArgumentNumberDockerService, mkArgument "Service" "(docker service ls --format='{{.Name}}')");
      (ArgumentNumberDockerStack, mkArgument "Stack" "(docker stack ls --format='{{.Name}}')");
      (ArgumentNumberDockerVolume, mkArgument "Volume" "(docker volume ls --format='{{.Name}}')");
      (ArgumentNumberFile, mkArgument "" "(ls)") ].

Definition FishDockerCommandChainSatisfies : string :=
  String.concat nl
    [ "function __fish_docker_command_chain_satisfies";
      "    set -l cmd (commandline -poc)";
      "    if test (count $cmd) -lt (count $argv)";
      "        return 1";
      "    end";
      "    for i in (seq (count $argv))";
      "        if test $cmd[$i] != $argv[$i]";
      "            return 1";
      "        end";
      "    end";
      "    return 0";
      "end" ].

Definition FishDockerCommandChainExactlyMatches : string :=
  String.concat nl
    [ "function __fish_docker_command_chain_exactly_matches";
      "    if not __fish_docker_command_chain_satisfies $argv";
      "        return 1";
      "    end";
      "    set -l cmd (commandline -poc)";
      "    if test (count $cmd) -eq (count $argv)";
      "        return 0";
      "    end";
      "    string match -q -r '^--?\w+' -- $cmd[(math 1 + (count $argv))]";
      "end" ].

(** How [main] ends: [log.Fatal(err)], or a normal return after printing. *)
Inductive exit : Type :=
  | Fatal (err : error)
  | Printed (stdout : string).

Section Rendering.
(** The verb [%q] of package [fmt] on a string: [strconv.Quote]. *)
Variable quote : string → string.
Variable ρ : RangeOrder.

(** [complete -c docker -n '__fish_docker_command_chain_exactly_matches %s'],
    the common head of the three formats. *)
Definition completeFor (chainString : string) : string :=
  "complete -c docker -n '__fish_docker_command_chain_exactly_matches "
  +:+ chainString +:+ "'".

(** The body of [for k, v := range Arguments]. *)
Definition argumentStep (c : Command) (s : string) (kv : Z * Argument) : string :=
  if (Z.land kv.1 (Arguments c) =? 0)%Z then s
  else s +:+ completeFor (ChainString c)
         +:+ " -a " +:+ quote (ArgumentCommand kv.2)
         +:+ " -d " +:+ quote (ArgumentType kv.2) +:+ nl.

(** The loop over [c.Subcommands]; [sc.Chain[len(sc.Chain)-1]] panics on an
    empty chain. *)
Fixpoint subcommandLines (chainString : string) (subcommands : list Command) (s : string)
  : outcome string :=
  match subcommands with
  | [] => Ret s
  | sc :: rest =>
      match last (Chain sc) with
      | None => Panic
      | Some name =>
          subcommandLines chainString rest
            (s +:+ completeFor chainString +:+ " -a " +:+ name
               +:+ " -d " +:+ quote (Desc sc) +:+ nl)
      end
  end.

(** The body of the loop over [c.Options]. *)
Definition optionStep (chainString : string) (s : string) (opt : Option.t) : string :=
  let s := s +:+ completeFor chainString in
  let s := if String.eqb (Option.Short opt) EmptyString then s
           else s +:+ " -s " +:+ Option.Short opt in
  let s := if String.eqb (Option.Long opt) EmptyString then s
           else s +:+ " -l " +:+ Option.Long opt in
  s +:+ " -d " +:+ quote (Option.Desc opt) +:+ nl.

Definition Completion (c : Command) : outcome string :=
  let s := foldl (argumentStep c) EmptyString (rangeMap ρ ArgumentsMap) in
  s ← subcommandLines (ChainString c) (Subcommands c) s;
  Ret (foldl (optionStep (ChainString c)) s (Options c)).

(** [traverse] of [main.go]: what a call that returns has printed. *)
Fixpoint traverse (c : Command) : outcome string :=
  match c with
  | mkCommand _ _ _ _ subcommands _ =>
      s ← Completion c;
      (fix loop (l : list Command) (s : string) : outcome string :=
         match l with
         | [] => Ret s
         | sc :: rest => t ← traverse sc; loop rest (s +:+ t)
         end) subcommands s
  end.

(** [main], with the fuel of its call of [Forge]. *)
Definition main (exec : list string → output) (fuel : nat) : outcome exit :=
  r ← Forge exec ρ fuel "docker" [] EmptyString;
  match r with
  | (_, Some err) => Ret (Fatal err)
  | (None, None) => Panic
  | (Some c, None) =>
      t ← traverse c;
      Ret (Printed (FishDockerCommandChainSatisfies +:+ nl
                    +:+ FishDockerCommandChainExactlyMatches +:+ nl
                    +:+ "complete -c docker -f" +:+ nl
                    +:+ "complete -c docker -l help -d 'Print usage'" +:+ nl
                    +:+ t))
  end.
End Rendering.

(** [P] holds of the node and of every node below it. *)
Fixpoint treeAll (P : Command → Prop) (c : Command) : Prop :=
  P c
  ∧ match c with
    | mkCommand _ _ _ _ subcommands _ =>
        (fix all (l : list Command) : Prop :=
           match l with
           | [] => True
           | sc :: rest => treeAll P sc ∧ all rest
           end) subcommands
    end.

(** The chain of every subcommand of the node is the chain of the node and
    one more token. *)
Definition childrenExtendChain (c : Command) : Prop :=
  Forall (fun sc => ∃ name, Chain sc = Chain c ++ [name]) (Subcommands c).

(** The help text of the node is what the process printed for its chain. *)
Definition helpIsOutput (exec : list string → output) (c : Command) : Prop :=
  exec (Chain c ++ ["--help"]) = Output (helpMessage c).

(** The mask of the node holds none but the eleven flag bits. *)
Definition maskInRange (c : Command) : Prop :=
  (0 ≤ Arguments c < 2 ^ 11)%Z.

(** The byte does not occur in the string. *)
Definition freeOf (a : ascii) (s : string) : bool :=
  allIn (fun b => negb (Ascii.eqb b a)) s.

(** A line [bufio.ScanLines] hands over as it is: no newline in it, no
    carriage return at its end, fewer bytes than the token limit. *)
Definition plainLine (line : string) : bool :=
  freeOf newline line && negb (lastIn (Ascii.eqb carriageReturn) line) && negb (tooLong line).

(** The descriptions of an entry and of the continuation lines after it,
    joined by single spaces. *)
Definition joinedDesc (desc : string) (continuations : list (string * string)) : string :=
  Join (desc :: ((fun p => TrimSpace p.2) <$> continuations)) " ".

(** Help texts for the properties below. *)
Definition helpLowerCase : string :=
  unlines [ "Options:";
            "  -a, --all    show all";
            "  -q           quiet" ].

Definition execLowerCase : list string → output :=
  answers [ (["docker"; "--help"], helpLowerCase) ].

Definition helpUsageTrailer : string :=
  unlines [ "Usage:  docker rm CONTAINER";
            "        docker rm IMAGE" ].

(** The line has a white-space byte at column [k - 1] and an upper-case
    letter at column [k]. *)
Definition hasHeadAt (k : nat) (line : string) : bool :=
  match k with
  | O => false
  | S i =>
      match String.get i line, String.get k line with
      | Some a, Some b => isRegexpSpace a && isUpper b
      | _, _ => false
      end
  end.

(** The number of lines of the group with a description head at column [k]. *)
Definition linesWithHeadAt (k : nat) (lines : list string) : nat :=
  length (filter (fun line => hasHeadAt k line = true) lines).

(** [n] times the byte [a]. *)
Fixpoint replicateByte (n : nat) (a : ascii) : string :=
  match n with
  | O => EmptyString
  | S n' => String a (replicateByte n' a)
  end.

(** * Properties *)

(** ** The order of [range] *)

Lemma range_ok_inOrder : range_ok inOrder.
Proof. intros A l. reflexivity. Qed.

Lemma range_ok_backwards : range_ok backwards.
Proof. intros A l. unfold backwards. apply reverse_Permutation. Qed.

Lemma rangeMap_perm `{Countable K} {V} (ρ : RangeOrder) (m : gmap K V) :
  range_ok ρ → rangeMap ρ m ≡ₚ map_to_list m.
Proof. intros Hρ. apply Hρ. Qed.

Lemma rangeMap_empty `{Countable K} {V} (ρ : RangeOrder) :
  range_ok ρ → rangeMap ρ (∅ : gmap K V) = [].
Proof.
  intros Hρ. unfold rangeMap. rewrite map_to_list_empty.
  apply Permutation_nil_r. exact (Hρ _ []).
Qed.

Lemma rangeMap_singleton `{Countable K} {V} (ρ : RangeOrder) (k : K) (v : V) :
  range_ok ρ → rangeMap ρ ({[ k := v ]} : gmap K V) = [(k, v)].
Proof.
  intros Hρ. unfold rangeMap. rewrite map_to_list_singleton.
  apply Permutation_singleton_r. exact (Hρ _ [(k, v)]).
Qed.

Lemma rangeMap_NoDup `{Countable K} {V} (ρ : RangeOrder) (m : gmap K V) :
  range_ok ρ → NoDup (rangeMap ρ m).*1.
Proof.
  intros Hρ. rewrite (rangeMap_perm ρ m Hρ). apply NoDup_fst_map_to_list.
Qed.

Lemma rangeMap_lookup `{Countable K} {V} (ρ : RangeOrder) (m : gmap K V) k v :
  range_ok ρ → (k, v) ∈ rangeMap ρ m ↔ m !! k = Some v.
Proof.
  intros Hρ. rewrite (rangeMap_perm ρ m Hρ). apply elem_of_map_to_list.
Qed.

Lemma rangeMap_to_map `{Countable K} {V} (ρ : RangeOrder) (m : gmap K V) :
  range_ok ρ → list_to_map (rangeMap ρ m) = m.
Proof.
  intros Hρ. rewrite <- (list_to_map_to_list m) at 2.
  apply list_to_map_proper.
  - by apply rangeMap_NoDup.
  - by apply rangeMap_perm.
Qed.

(** ** Appending to an entry of a map *)

Lemma appendAll_cons {V} (m : gmap string (list V)) k x xs :
  appendAll m k (x :: xs) = <[k := default [] (m !! k) ++ x :: xs]> m.
Proof.
  revert m x. induction xs as [|y xs IH]; intros m x.
  - reflexivity.
  - change (appendAll m k (x :: y :: xs)) with (appendAll (appendAt m k x) k (y :: xs)).
    rewrite IH. unfold appendAt. rewrite lookup_insert_eq, insert_insert_eq.
    cbn [from_option id]. by rewrite <- app_assoc.
Qed.

Lemma appendAll_lookup {V} (m : gmap string (list V)) k xs :
  default [] (appendAll m k xs !! k) = default [] (m !! k) ++ xs.
Proof.
  destruct xs as [|x xs].
  - cbn. by rewrite app_nil_r.
  - by rewrite appendAll_cons, lookup_insert_eq.
Qed.

Lemma appendAll_lookup_ne {V} (m : gmap string (list V)) k k' xs :
  k ≠ k' → appendAll m k xs !! k' = m !! k'.
Proof.
  intros Hne. destruct xs as [|x xs]; [done|].
  by rewrite appendAll_cons, lookup_insert_ne.
Qed.

Lemma appendAll_empty {V} k (x : V) xs :
  appendAll ∅ k (x :: xs) = {[ k := x :: xs ]}.
Proof. by rewrite appendAll_cons, lookup_empty. Qed.

(** ** [splitDescription] *)

Lemma fitsColumn_Forall i lines :
  fitsColumn i lines = true ↔ Forall (fun line => i ≤ String.length line) lines.
Proof.
  unfold fitsColumn. rewrite forallb_forall, Forall_forall.
  split; intros Hall l Hl.
  - apply Nat.leb_le, Hall. by apply list_elem_of_In.
  - apply Nat.leb_le, Hall. by apply list_elem_of_In.
Qed.

Lemma splitLines_fits i key lines pairsMap :
  fitsColumn i lines = true →
  splitLines i key lines pairsMap = Ret (appendAll pairsMap key (cutAt i <$> lines)).
Proof.
  revert pairsMap. induction lines as [|line rest IH]; intros pairsMap Hfit.
  - reflexivity.
  - cbn in Hfit. apply andb_true_iff in Hfit as [Hl Hrest].
    cbn [splitLines]. unfold sliceAt. rewrite Hl. cbn. by rewrite IH.
Qed.

Lemma splitLines_short i key lines pairsMap :
  fitsColumn i lines = false → splitLines i key lines pairsMap = Panic.
Proof.
  revert pairsMap. induction lines as [|line rest IH]; intros pairsMap Hfit.
  - discriminate.
  - cbn in Hfit. cbn [splitLines]. unfold sliceAt.
    destruct (i <=? String.length line) eqn:Hl; [|reflexivity].
    cbn in *. by apply IH.
Qed.

Lemma splitLines_Ret i key lines pairsMap pairsMap' :
  splitLines i key lines pairsMap = Ret pairsMap' →
  fitsColumn i lines = true ∧ pairsMap' = appendAll pairsMap key (cutAt i <$> lines).
Proof.
  intros E. destruct (fitsColumn i lines) eqn:Hfit.
  - rewrite splitLines_fits in E by done. by inversion E.
  - rewrite splitLines_short in E by done. discriminate.
Qed.

(** What [splitGroups] leaves under a key, when it returns. *)
Lemma splitGroups_lookup ρ groups pairsMap pairsMap' k :
  NoDup groups.*1 →
  splitGroups ρ groups pairsMap = Ret pairsMap' →
  default [] (pairsMap' !! k)
  = default [] (pairsMap !! k)
    ++ cutGroup ρ (default [] ((list_to_map groups : gmap string (list string)) !! k)).
Proof.
  revert pairsMap. induction groups as [|[key lines] rest IH]; intros pairsMap Hnd E.
  - inversion E; subst. cbn. by rewrite lookup_empty, app_nil_r.
  - cbn in Hnd. apply NoDup_cons in Hnd as [Hkey Hnd].
    cbn [splitGroups] in E.
    destruct (splitLines (descHeadIndexOf ρ lines) key lines pairsMap) as [pm| |] eqn:Es;
      try discriminate.
    cbn in E. apply splitLines_Ret in Es as [_ ->].
    rewrite (IH _ Hnd E). cbn [list_to_map foldr].
    destruct (decide (key = k)) as [->|Hne].
    + rewrite appendAll_lookup, lookup_insert_eq.
      rewrite (not_elem_of_list_to_map_1 rest k) by done.
      cbn. by rewrite app_nil_r.
    + by rewrite appendAll_lookup_ne, lookup_insert_ne.
Qed.

Lemma splitGroups_fits ρ groups pairsMap pairsMap' :
  splitGroups ρ groups pairsMap = Ret pairsMap' →
  Forall (fun g => fitsColumn (descHeadIndexOf ρ g.2) g.2 = true) groups.
Proof.
  revert pairsMap. induction groups as [|[key lines] rest IH]; intros pairsMap E.
  - constructor.
  - cbn [splitGroups] in E.
    destruct (splitLines (descHeadIndexOf ρ lines) key lines pairsMap) as [pm| |] eqn:Es;
      try discriminate.
    cbn in E. apply splitLines_Ret in Es as [Hfit _].
    constructor; [done|]. by eapply IH.
Qed.

Lemma splitDescription_lookup ρ linesMap pairsMap k :
  range_ok ρ →
  splitDescription ρ linesMap = Ret pairsMap →
  default [] (pairsMap !! k) = cutGroup ρ (default [] (linesMap !! k)).
Proof.
  intros Hρ E. unfold splitDescription in E.
  rewrite (splitGroups_lookup _ _ _ _ k (rangeMap_NoDup ρ linesMap Hρ) E).
  by rewrite lookup_empty, rangeMap_to_map.
Qed.

Lemma splitDescription_fits ρ linesMap pairsMap k lines :
  range_ok ρ →
  splitDescription ρ linesMap = Ret pairsMap →
  linesMap !! k = Some lines →
  fitsColumn (descHeadIndexOf ρ lines) lines = true.
Proof.
  intros Hρ E Hk. unfold splitDescription in E.
  apply splitGroups_fits in E. rewrite Forall_forall in E.
  apply (E (k, lines)). by apply rangeMap_lookup.
Qed.

Lemma splitDescription_empty ρ : range_ok ρ → splitDescription ρ ∅ = Ret ∅.
Proof. intros Hρ. unfold splitDescription. by rewrite rangeMap_empty. Qed.

Lemma splitDescription_singleton ρ key line lines :
  range_ok ρ →
  fitsColumn (descHeadIndexOf ρ (line :: lines)) (line :: lines) = true →
  splitDescription ρ {[ key := line :: lines ]}
  = Ret {[ key := cutGroup ρ (line :: lines) ]}.
Proof.
  intros Hρ Hfit. unfold splitDescription. rewrite rangeMap_singleton by done.
  cbn [splitGroups]. rewrite splitLines_fits by done.
  cbn [mbind outcome_bind]. unfold cutGroup.
  rewrite fmap_cons. by rewrite appendAll_empty.
Qed.

Lemma splitDescription_singleton_short ρ key lines :
  range_ok ρ →
  fitsColumn (descHeadIndexOf ρ lines) lines = false →
  splitDescription ρ {[ key := lines ]} = Panic.
Proof.
  intros Hρ Hfit. unfold splitDescription. rewrite rangeMap_singleton by done.
  cbn [splitGroups]. by rewrite splitLines_short.
Qed.

(** ** The choice of the split column *)

Lemma pickFrom_cons st kv entries :
  pickFrom st (kv :: entries) = pickFrom (pickStep st kv) entries.
Proof. reflexivity. Qed.

(** The loop returns its initial state when no entry has more votes, and
    otherwise the first visited entry that no other entry beats. *)
Lemma pickFrom_first entries st :
  (pickFrom st entries = st ∧ Forall (fun kv => kv.2 ≤ st.2) entries)
  ∨ (∃ pre post,
        entries = pre ++ pickFrom st entries :: post
        ∧ Forall (fun kv => kv.2 < (pickFrom st entries).2) pre
        ∧ Forall (fun kv => kv.2 ≤ (pickFrom st entries).2) post
        ∧ st.2 < (pickFrom st entries).2).
Proof.
  revert st. induction entries as [|[k v] rest IH]; intros st.
  - left. split; [reflexivity | constructor].
  - rewrite pickFrom_cons. unfold pickStep. cbn [fst snd].
    destruct (st.2 <? v) eqn:Hlt.
    + apply Nat.ltb_lt in Hlt. right.
      destruct (IH (k, v)) as [[E Hall] | (pre & post & E & Hpre & Hpost & Hgt)].
      * rewrite E. exists [], rest. cbn. split_and!; auto.
      * cbn [snd] in Hgt. exists ((k, v) :: pre), post. split_and!; auto.
        -- cbn. by rewrite <- E.
        -- lia.
    + apply Nat.ltb_ge in Hlt.
      destruct (IH st) as [[E Hall] | (pre & post & E & Hpre & Hpost & Hgt)].
      * left. rewrite E. split; [done|]. constructor; done.
      * right. exists ((k, v) :: pre), post. split_and!; auto.
        -- cbn. by rewrite <- E.
        -- constructor; [cbn; lia | done].
Qed.

Lemma bump_positive (m : gmap nat nat) k :
  map_Forall (fun _ v => 0 < v) m → map_Forall (fun _ v => 0 < v) (bump m k).
Proof.
  intros Hm. unfold bump. apply map_Forall_insert_2; [lia | done].
Qed.

Lemma tallyLine_positive (m : gmap nat nat) line :
  map_Forall (fun _ v => 0 < v) m → map_Forall (fun _ v => 0 < v) (tallyLine m line).
Proof.
  unfold tallyLine. generalize (descHeadMatches line 0). intros idxs.
  revert m. induction idxs as [|i idxs IH]; intros m Hm; [done|].
  cbn. apply IH. by apply bump_positive.
Qed.

(** Every column that received a vote received at least one. *)
Lemma descHeadIndices_positive lines :
  map_Forall (fun _ v => 0 < v) (descHeadIndices lines).
Proof.
  unfold descHeadIndices.
  assert (Hgen : ∀ m : gmap nat nat, map_Forall (fun _ v => 0 < v) m →
                   map_Forall (fun _ v => 0 < v) (foldl tallyLine m lines)).
  { induction lines as [|l ls IH]; intros m Hm; [done|].
    cbn. apply IH. by apply tallyLine_positive. }
  apply Hgen. apply map_Forall_empty.
Qed.

(** What the loop chooses, for every order in which the votes are visited. *)
Lemma pickDescHead_spec (votes : gmap nat nat) (entries : list (nat * nat)) :
  map_Forall (fun _ v => 0 < v) votes →
  entries ≡ₚ map_to_list votes →
  (votes = ∅ ∧ pickDescHead entries = 0)
  ∨ (∃ v pre post,
        votes !! pickDescHead entries = Some v
        ∧ (∀ k' v', votes !! k' = Some v' → v' ≤ v)
        ∧ entries = pre ++ (pickDescHead entries, v) :: post
        ∧ Forall (fun kv => kv.2 < v) pre).
Proof.
  intros Hpos Hperm. unfold pickDescHead.
  destruct (pickFrom_first entries (0, 0)) as [[E Hall] | (pre & post & E & Hpre & Hpost & Hgt)].
  - left. rewrite E. split; [|done].
    apply map_empty. intros k. destruct (votes !! k) as [v|] eqn:Hk; [|done].
    exfalso. pose proof (Hpos k v Hk) as Hv.
    apply elem_of_map_to_list in Hk. rewrite <- Hperm in Hk.
    rewrite Forall_forall in Hall. specialize (Hall _ Hk). cbn in Hall, Hv. lia.
  - right. destruct (pickFrom (0, 0) entries) as [k v] eqn:Ep. cbn [fst snd] in *.
    exists v, pre, post.
    assert (Hin : (k, v) ∈ entries).
    { rewrite E. apply elem_of_app. right. apply elem_of_cons. by left. }
    split_and!; auto.
    + apply elem_of_map_to_list. by rewrite <- Hperm.
    + intros k' v' Hk'. apply elem_of_map_to_list in Hk'. rewrite <- Hperm in Hk'.
      rewrite E in Hk'. apply elem_of_app in Hk' as [Hk' | Hk'].
      * rewrite Forall_forall in Hpre. specialize (Hpre _ Hk'). cbn in Hpre. lia.
      * apply elem_of_cons in Hk' as [Hk' | Hk'].
        -- by inversion Hk'.
        -- rewrite Forall_forall in Hpost. by specialize (Hpost _ Hk').
Qed.

(** C3 (amended): for every order in which the votes are visited, the loop of
    [splitDescription] chooses column 0 when the group has no candidate
    column, and otherwise a candidate column with the highest vote count:
    the first such column in the visiting order.  When one column alone has
    the highest count, every visiting order chooses it. *)
Theorem split_column_has_most_votes (lines : list string) (entries : list (nat * nat)) :
  entries ≡ₚ map_to_list (descHeadIndices lines) →
  (descHeadIndices lines = ∅ → pickDescHead entries = 0)
  ∧ (descHeadIndices lines ≠ ∅ →
      ∃ v pre post,
        descHeadIndices lines !! pickDescHead entries = Some v
        ∧ (∀ k' v', descHeadIndices lines !! k' = Some v' → v' ≤ v)
        ∧ entries = pre ++ (pickDescHead entries, v) :: post
        ∧ Forall (fun kv => kv.2 < v) pre)
  ∧ (∀ entries' : list (nat * nat),
      entries' ≡ₚ map_to_list (descHeadIndices lines) →
      (∀ k' v v', descHeadIndices lines !! pickDescHead entries = Some v →
                  descHeadIndices lines !! k' = Some v' →
                  k' ≠ pickDescHead entries → v' < v) →
      pickDescHead entries' = pickDescHead entries).
Proof.
  intros Hperm.
  pose proof (pickDescHead_spec _ _ (descHeadIndices_positive lines) Hperm) as Hs.
  split; [|split].
  - intros Hemp. destruct Hs as [[_ E] | (v & pre & post & Hk & _)]; [done|].
    rewrite Hemp, lookup_empty in Hk. discriminate.
  - intros Hne. destruct Hs as [[E _] | Hs]; [done | exact Hs].
  - intros entries' Hperm' Huniq.
    pose proof (pickDescHead_spec _ _ (descHeadIndices_positive lines) Hperm') as Hs'.
    destruct Hs as [[Hemp E] | (v & pre & post & Hk & Hmax & _)].
    + destruct Hs' as [[_ E'] | (v' & pre' & post' & Hk' & _)]; [congruence|].
      rewrite Hemp, lookup_empty in Hk'. discriminate.
    + destruct Hs' as [[Hemp _] | (v' & pre' & post' & Hk' & Hmax' & _)].
      * rewrite Hemp, lookup_empty in Hk. discriminate.
      * destruct (decide (pickDescHead entries' = pickDescHead entries)) as [|Hne]; [done|].
        pose proof (Huniq _ _ _ Hk Hk' Hne). pose proof (Hmax' _ _ Hk). lia.
Qed.

(** The column of a group is that choice at the order [ρ] visits the votes in. *)
Lemma descHeadIndexOf_single ρ lines i v :
  range_ok ρ → descHeadIndices lines = {[ i := S v ]} → descHeadIndexOf ρ lines = i.
Proof.
  intros Hρ E. unfold descHeadIndexOf. rewrite E, rangeMap_singleton by done. reflexivity.
Qed.

Lemma descHeadIndexOf_none ρ lines :
  range_ok ρ → descHeadIndices lines = ∅ → descHeadIndexOf ρ lines = 0.
Proof.
  intros Hρ E. unfold descHeadIndexOf. rewrite E, rangeMap_empty by done. reflexivity.
Qed.

Lemma split_column_has_most_votes_witness :
  [(9, 2)] ≡ₚ map_to_list (descHeadIndices ["connect  Connect a container to a network";
                                            "create   Create a network"])
  ∧ ∃ v pre post,
      descHeadIndices ["connect  Connect a container to a network";
                       "create   Create a network"] !! pickDescHead [(9, 2)] = Some v
      ∧ (∀ k' v', descHeadIndices ["connect  Connect a container to a network";
                                   "create   Create a network"] !! k' = Some v' → v' ≤ v)
      ∧ [(9, 2)] = pre ++ (pickDescHead [(9, 2)], v) :: post
      ∧ Forall (fun kv => kv.2 < v) pre.
Proof.
  assert (Hperm : [(9, 2)] ≡ₚ map_to_list
            (descHeadIndices ["connect  Connect a container to a network";
                              "create   Create a network"])).
  { vm_compute. reflexivity. }
  split; [exact Hperm|].
  apply (proj1 (proj2 (split_column_has_most_votes _ _ Hperm))).
  vm_compute. discriminate.
Defined.

(** C3, as stated, fails: in the group made of the line [a B C] the columns
    2 and 4 tie with one vote each, and a loop that visits column 4 first
    chooses 4, not the lowest column; another order chooses 2. *)
Lemma split_column_tie_not_lowest :
  let votes := descHeadIndices ["a B C"] in
  votes !! 2 = Some 1 ∧ votes !! 4 = Some 1
  ∧ [(4, 1); (2, 1)] ≡ₚ map_to_list votes
  ∧ [(2, 1); (4, 1)] ≡ₚ map_to_list votes
  ∧ pickDescHead [(4, 1); (2, 1)] = 4
  ∧ pickDescHead [(2, 1); (4, 1)] = 2
  ∧ range_ok inOrder ∧ range_ok backwards
  ∧ descHeadIndexOf inOrder ["a B C"] = 4
  ∧ descHeadIndexOf backwards ["a B C"] = 2.
Proof.
  cbn zeta. split_and!.
  - vm_compute. reflexivity.
  - vm_compute. reflexivity.
  - vm_compute. reflexivity.
  - vm_compute. apply perm_swap.
  - reflexivity.
  - reflexivity.
  - apply range_ok_inOrder.
  - apply range_ok_backwards.
  - vm_compute. reflexivity.
  - vm_compute. reflexivity.
Qed.

(** ** The candidate columns *)

Lemma space_not_upper a : isRegexpSpace a = true → isUpper a = false.
Proof.
  destruct a as [[] [] [] [] [] [] [] []]; vm_compute; intros; congruence.
Qed.

Lemma descHeadMatches_cons a b s2 i :
  descHeadMatches (String a (String b s2)) i
  = if isRegexpSpace a && isUpper b then i :: descHeadMatches s2 (S (S i))
    else descHeadMatches (String b s2) (S i).
Proof. reflexivity. Qed.

(** The matches of [\s[A-Z]] are the offsets of a white-space byte that an
    upper-case letter follows. *)
Lemma descHeadMatches_sound s j i :
  i ∈ descHeadMatches s j →
  j ≤ i ∧ ∃ a b, String.get (i - j) s = Some a ∧ String.get (S (i - j)) s = Some b
                 ∧ isRegexpSpace a = true ∧ isUpper b = true.
Proof.
  remember (String.length s) as n eqn:Hn. revert s j Hn.
  induction (lt_wf n) as [n _ IH]. intros s j -> Hin.
  destruct s as [|a [|b s2]]; [by apply elem_of_nil in Hin..|].
  rewrite descHeadMatches_cons in Hin.
  destruct (isRegexpSpace a && isUpper b) eqn:Hm.
  - apply andb_true_iff in Hm as [Ha Hb].
    apply elem_of_cons in Hin as [-> | Hin].
    + split; [lia|]. rewrite Nat.sub_diag. by exists a, b.
    + apply (IH (String.length s2)) in Hin as (Hle & a' & b' & Ga & Gb & Ha' & Hb');
        [| cbn; lia | done].
      split; [lia|]. exists a', b'.
      replace (i - j) with (S (S (i - S (S j)))) by lia. by split_and!.
  - apply (IH (String.length (String b s2))) in Hin as (Hle & a' & b' & Ga & Gb & Ha' & Hb');
      [| cbn; lia | done].
    split; [lia|]. exists a', b'.
    replace (i - j) with (S (i - S j)) by lia. by split_and!.
Qed.

Lemma descHeadMatches_complete s j k a b :
  String.get k s = Some a → String.get (S k) s = Some b →
  isRegexpSpace a = true → isUpper b = true →
  j + k ∈ descHeadMatches s j.
Proof.
  remember (String.length s) as n eqn:Hn. revert s j k Hn.
  induction (lt_wf n) as [n _ IH]. intros s j k -> Ga Gb Ha Hb.
  destruct s as [|a0 [|b0 s2]]; [discriminate | by destruct k |].
  rewrite descHeadMatches_cons.
  destruct k as [|[|k]].
  - cbn in Ga, Gb. inversion Ga; inversion Gb; subst. rewrite Ha, Hb. cbn.
    rewrite Nat.add_0_r. by left.
  - cbn in Ga, Gb. inversion Ga; subst.
    rewrite (space_not_upper _ Ha), andb_false_r.
    replace (j + 1) with (S j + 0) by lia.
    by apply (IH (String.length (String a s2)) ltac:(cbn; lia) _ _ 0 eq_refl).
  - destruct (isRegexpSpace a0 && isUpper b0).
    + right. replace (j + S (S k)) with (S (S j) + k) by lia.
      by apply (IH (String.length s2) ltac:(cbn; lia) _ _ k eq_refl).
    + replace (j + S (S k)) with (S j + S k) by lia.
      by apply (IH (String.length (String b0 s2)) ltac:(cbn; lia) _ _ (S k) eq_refl).
Qed.

Lemma bump_lookup (m : gmap nat nat) k k' :
  is_Some (bump m k !! k') ↔ k' = k ∨ is_Some (m !! k').
Proof.
  unfold bump. destruct (decide (k = k')) as [->|Hne].
  - rewrite lookup_insert_eq. split; [by left | by eexists].
  - rewrite lookup_insert_ne by done. split; [by right | by intros [? | ?]].
Qed.

Lemma tallyLine_lookup (m : gmap nat nat) line k :
  is_Some (tallyLine m line !! k)
  ↔ is_Some (m !! k) ∨ ∃ i, i ∈ descHeadMatches line 0 ∧ k = i + 1.
Proof.
  unfold tallyLine. generalize (descHeadMatches line 0). intros idxs.
  revert m. induction idxs as [|i idxs IH]; intros m.
  - cbn. split; [by left | intros [? | (i & ?%elem_of_nil & _)]; done].
  - cbn [foldl]. rewrite IH, bump_lookup. split.
    + intros [[-> | Hm] | (i' & Hin & ->)].
      * right. exists i. split; [by left | done].
      * by left.
      * right. exists i'. split; [by right | done].
    + intros [Hm | (i' & Hin & ->)]; [by left; right|].
      apply elem_of_cons in Hin as [-> | Hin]; [by left; left|].
      right. by exists i'.
Qed.

(** A column has votes exactly when some line of the group has a match of
    [\s[A-Z]] whose letter stands at that column. *)
Lemma descHeadIndices_candidates lines k :
  is_Some (descHeadIndices lines !! k)
  ↔ ∃ line i, line ∈ lines ∧ i ∈ descHeadMatches line 0 ∧ k = i + 1.
Proof.
  unfold descHeadIndices.
  assert (Hgen : ∀ m : gmap nat nat,
            is_Some (foldl tallyLine m lines !! k)
            ↔ is_Some (m !! k) ∨ ∃ line i, line ∈ lines ∧ i ∈ descHeadMatches line 0 ∧ k = i + 1).
  { induction lines as [|l ls IH]; intros m.
    - cbn. split; [by left | intros [? | (? & ? & ?%elem_of_nil & _)]; done].
    - cbn [foldl]. rewrite IH, tallyLine_lookup. split.
      + intros [[Hm | (i & Hin & ->)] | (l' & i & Hl & Hin & ->)].
        * by left.
        * right. exists l, i. split_and!; [by left | done | done].
        * right. exists l', i. split_and!; [by right | done | done].
      + intros [Hm | (l' & i & Hl & Hin & ->)]; [by left; left|].
        apply elem_of_cons in Hl as [-> | Hl].
        * left. right. by exists i.
        * right. by exists l', i. }
  rewrite Hgen, lookup_empty. split.
  - intros [[? [=]] | ?]; done.
  - by right.
Qed.

(** ** [scanHelpMessage] *)

Lemma scanFrom_cons markers st line lines :
  scanFrom markers st (line :: lines) = scanFrom markers (scanStep markers st line) lines.
Proof. reflexivity. Qed.

Lemma scanFrom_app markers st lines1 lines2 :
  scanFrom markers st (lines1 ++ lines2)
  = scanFrom markers (scanFrom markers st lines1) lines2.
Proof. unfold scanFrom. apply foldl_app. Qed.

Lemma scanStep_blank markers cur linesMap line :
  isBlank line = true → scanStep markers (cur, linesMap) line = (EmptyString, linesMap).
Proof. intros Hb. unfold scanStep. by rewrite Hb. Qed.

Lemma scanStep_header markers marker cur linesMap line :
  isHeaderOf markers marker line = true →
  scanStep markers (cur, linesMap) line = (marker, linesMap).
Proof.
  unfold isHeaderOf. intros Hh.
  apply andb_true_iff in Hh as [Hh Ht]. apply andb_true_iff in Hh as [Hb Hm].
  apply negb_true_iff in Hb. apply bool_decide_eq_true in Hm.
  unfold scanStep. by rewrite Hb, Hm, Ht.
Qed.

Lemma scanStep_idle markers linesMap line :
  isBodyLine markers line = true →
  scanStep markers (EmptyString, linesMap) line = (EmptyString, linesMap).
Proof.
  unfold isBodyLine. intros Hl. apply andb_true_iff in Hl as [Hb Hm].
  apply negb_true_iff in Hb. apply bool_decide_eq_true in Hm.
  unfold scanStep. by rewrite Hb, Hm.
Qed.

Lemma scanStep_body markers cur linesMap line :
  cur ≠ EmptyString →
  isBodyLine markers line = true →
  scanStep markers (cur, linesMap) line = (cur, appendAt linesMap cur line).
Proof.
  unfold isBodyLine. intros Hc Hl. apply andb_true_iff in Hl as [Hb Hm].
  apply negb_true_iff in Hb. apply bool_decide_eq_true in Hm.
  unfold scanStep. rewrite Hb, Hm.
  by apply String.eqb_neq in Hc as ->.
Qed.

(** While no marker is current, body lines are dropped. *)
Lemma scanFrom_idle markers linesMap lines :
  forallb (isBodyLine markers) lines = true →
  scanFrom markers (EmptyString, linesMap) lines = (EmptyString, linesMap).
Proof.
  induction lines as [|l ls IH]; intros Hall; [reflexivity|].
  cbn in Hall. apply andb_true_iff in Hall as [Hl Hls].
  rewrite scanFrom_cons, scanStep_idle by done. by apply IH.
Qed.

(** While a marker is current, body lines go to its group. *)
Lemma scanFrom_body markers cur linesMap lines :
  cur ≠ EmptyString →
  forallb (isBodyLine markers) lines = true →
  scanFrom markers (cur, linesMap) lines = (cur, appendAll linesMap cur lines).
Proof.
  intros Hc. revert linesMap. induction lines as [|l ls IH]; intros linesMap Hall; [reflexivity|].
  cbn in Hall. apply andb_true_iff in Hall as [Hl Hls].
  rewrite scanFrom_cons, scanStep_body by done. by apply IH.
Qed.

Lemma appendAll_app {V} (m : gmap string (list V)) k xs ys :
  appendAll (appendAll m k xs) k ys = appendAll m k (xs ++ ys).
Proof. unfold appendAll. by rewrite foldl_app. Qed.

(** C4 (amended): a blank line ends the current group, in that the lines
    after it are dropped until the next marker line; and when the same
    marker comes again after the blank line, the lines that follow it go to
    the one group the map has for that marker, after the lines of the
    first occurrence. *)
Theorem blank_line_ends_group_and_marker_resumes_it
    (markers : list string) (marker header1 header2 blank : string)
    (body1 dropped body2 : list string) (cur : string)
    (linesMap : gmap string (list string)) :
  marker ≠ EmptyString →
  isHeaderOf markers marker header1 = true →
  isHeaderOf markers marker header2 = true →
  isBlank blank = true →
  forallb (isBodyLine markers) body1 = true →
  forallb (isBodyLine markers) dropped = true →
  forallb (isBodyLine markers) body2 = true →
  scanFrom markers (cur, linesMap) (header1 :: body1 ++ blank :: dropped)
  = (EmptyString, appendAll linesMap marker body1)
  ∧ scanFrom markers (cur, linesMap)
      (header1 :: body1 ++ blank :: dropped ++ header2 :: body2)
    = (marker, appendAll linesMap marker (body1 ++ body2)).
Proof.
  intros Hm Hh1 Hh2 Hb Hb1 Hd Hb2.
  assert (E1 : scanFrom markers (cur, linesMap) (header1 :: body1 ++ blank :: dropped)
               = (EmptyString, appendAll linesMap marker body1)).
  { rewrite scanFrom_cons, (scanStep_header _ marker) by done.
    rewrite scanFrom_app, scanFrom_body by done.
    rewrite scanFrom_cons, scanStep_blank by done.
    by apply scanFrom_idle. }
  split; [exact E1|].
  replace (header1 :: body1 ++ blank :: dropped ++ header2 :: body2)
    with ((header1 :: body1 ++ blank :: dropped) ++ header2 :: body2)
    by (cbn; by rewrite <- app_assoc).
  rewrite scanFrom_app, E1.
  rewrite scanFrom_cons, (scanStep_header _ marker) by done.
  rewrite scanFrom_body by done. by rewrite appendAll_app.
Qed.

(** What one line adds to the group of a marker. *)
Lemma scanStep_contrib markers marker st line :
  ∃ gs, default [] ((scanStep markers st line).2 !! marker) = default [] (st.2 !! marker) ++ gs
        ∧ (gs = [] ∨ ∃ g, gs = [g] ∧ takenFrom marker g line).
Proof.
  destruct st as [cur linesMap]. unfold scanStep. cbn [snd].
  assert (Hsame : ∃ gs, default [] (linesMap !! marker) = default [] (linesMap !! marker) ++ gs
                        ∧ (gs = [] ∨ ∃ g, gs = [g] ∧ takenFrom marker g line)).
  { exists []. split; [by rewrite app_nil_r | by left]. }
  assert (Happ : ∀ k x, (k = marker → takenFrom marker x line) →
            ∃ gs, default [] (appendAt linesMap k x !! marker) = default [] (linesMap !! marker) ++ gs
                  ∧ (gs = [] ∨ ∃ g, gs = [g] ∧ takenFrom marker g line)).
  { intros k x Hx. unfold appendAt. destruct (decide (k = marker)) as [->|Hne].
    - rewrite lookup_insert_eq. exists [x]. split; [done|]. right. exists x. auto.
    - rewrite lookup_insert_ne by done. exact Hsame. }
  destruct (isBlank line); [exact Hsame|].
  destruct (hitMarker markers line) as [m|].
  - destruct (String.eqb _ _); [exact Hsame|].
    apply Happ. intros ->. by right.
  - destruct (String.eqb cur _); [exact Hsame|].
    apply Happ. intros _. by left.
Qed.

(** The group of a marker lists, in the order of the text, lines of the
    text or their remainders after the marker. *)
Lemma scanFrom_group_order markers marker lines st :
  ∃ gs picked,
    default [] ((scanFrom markers st lines).2 !! marker) = default [] (st.2 !! marker) ++ gs
    ∧ sublist picked lines
    ∧ Forall2 (takenFrom marker) gs picked.
Proof.
  revert st. induction lines as [|l ls IH]; intros st.
  - exists [], []. split_and!; [by rewrite app_nil_r | constructor | constructor].
  - rewrite scanFrom_cons.
    destruct (IH (scanStep markers st l)) as (gs & picked & E & Hsub & Hall).
    destruct (scanStep_contrib markers marker st l) as (g0 & E0 & [-> | (g & -> & Hg)]).
    + exists gs, picked. split_and!; [| by apply sublist_cons | done].
      rewrite E, E0. by rewrite app_nil_r.
    + exists (g :: gs), (l :: picked). split_and!; [| by apply sublist_skip | by constructor].
      rewrite E, E0. by rewrite <- app_assoc.
Qed.

Lemma scanHelpMessage_group_order msg markers marker :
  ∃ picked,
    sublist picked (scannerLines msg)
    ∧ Forall2 (takenFrom marker) (default [] (scanHelpMessage msg markers !! marker)) picked.
Proof.
  unfold scanHelpMessage.
  destruct (scanFrom_group_order markers marker (scannerLines msg) (EmptyString, ∅))
    as (gs & picked & E & Hsub & Hall).
  exists picked. split; [done|]. rewrite E. cbn [snd]. by rewrite lookup_empty.
Qed.

(** The keys of the map are markers. *)
Lemma hitMarker_elem markers line marker :
  hitMarker markers line = Some marker → marker ∈ markers.
Proof.
  induction markers as [|m ms IH]; cbn; [discriminate|].
  destruct (HasPrefix line m).
  - intros [= ->]. by left.
  - intros Hm. right. by apply IH.
Qed.

Lemma scanStep_keys markers st line :
  (st.1 = EmptyString ∨ st.1 ∈ markers) →
  (∀ k, is_Some (st.2 !! k) → k ∈ markers) →
  ((scanStep markers st line).1 = EmptyString ∨ (scanStep markers st line).1 ∈ markers)
  ∧ (∀ k, is_Some ((scanStep markers st line).2 !! k) → k ∈ markers).
Proof.
  destruct st as [cur linesMap]. cbn [fst snd]. intros Hcur Hkeys. unfold scanStep.
  assert (Happ : ∀ k x, k ∈ markers → ∀ k', is_Some (appendAt linesMap k x !! k') → k' ∈ markers).
  { intros k x Hk k'. unfold appendAt. destruct (decide (k = k')) as [->|Hne]; [done|].
    rewrite lookup_insert_ne by done. apply Hkeys. }
  destruct (isBlank line); [by split; [left|]|].
  destruct (hitMarker markers line) as [m|] eqn:Hm.
  - apply hitMarker_elem in Hm.
    destruct (String.eqb _ _); cbn [fst snd]; (split; [by right|]); [done|].
    by apply Happ.
  - destruct (String.eqb cur EmptyString) eqn:Ec; cbn [fst snd]; (split; [done|]); [done|].
    apply Happ. destruct Hcur as [-> | Hcur]; [discriminate | done].
Qed.

Lemma scanFrom_keys markers lines st :
  (st.1 = EmptyString ∨ st.1 ∈ markers) →
  (∀ k, is_Some (st.2 !! k) → k ∈ markers) →
  ∀ k, is_Some ((scanFrom markers st lines).2 !! k) → k ∈ markers.
Proof.
  revert st. induction lines as [|l ls IH]; intros st Hcur Hkeys; [done|].
  rewrite scanFrom_cons.
  destruct (scanStep_keys markers st l Hcur Hkeys) as [Hcur' Hkeys'].
  by apply IH.
Qed.

Lemma scanHelpMessage_keys msg markers k :
  is_Some (scanHelpMessage msg markers !! k) → k ∈ markers.
Proof.
  unfold scanHelpMessage. apply scanFrom_keys; cbn.
  - by left.
  - intros k' Hk'. rewrite lookup_empty in Hk'. by destruct Hk'.
Qed.

(** With one marker the map has at most that key. *)
Lemma scanHelpMessage_one_marker msg marker :
  scanHelpMessage msg [marker] = ∅
  ∨ ∃ lines, scanHelpMessage msg [marker] = {[ marker := lines ]}.
Proof.
  destruct (scanHelpMessage msg [marker] !! marker) as [lines|] eqn:E.
  - right. exists lines. apply map_eq. intros k.
    destruct (decide (k = marker)) as [->|Hne].
    + by rewrite lookup_singleton_eq.
    + rewrite lookup_singleton_ne by done.
      destruct (scanHelpMessage msg [marker] !! k) eqn:Ek; [|done].
      assert (Hk : k ∈ [marker]) by (apply (scanHelpMessage_keys msg); by rewrite Ek).
      apply list_elem_of_singleton in Hk. done.
  - left. apply map_empty. intros k.
    destruct (scanHelpMessage msg [marker] !! k) eqn:Ek; [|done].
    assert (Hk : k ∈ [marker]) by (apply (scanHelpMessage_keys msg); by rewrite Ek).
    apply list_elem_of_singleton in Hk. congruence.
Qed.

(** ** Strings *)

Lemma append_nil_l (s : string) : "" +:+ s = s.
Proof. reflexivity. Qed.

Lemma append_cons (a : ascii) (s1 s2 : string) : String a s1 +:+ s2 = String a (s1 +:+ s2).
Proof. reflexivity. Qed.

Lemma append_nil_r (s : string) : s +:+ "" = s.
Proof. induction s as [|a s IH]; [done|]. by rewrite append_cons, IH. Qed.

Lemma append_assoc (s1 s2 s3 : string) : (s1 +:+ s2) +:+ s3 = s1 +:+ s2 +:+ s3.
Proof. induction s1 as [|a s1 IH]; [done|]. by rewrite !append_cons, IH. Qed.

Lemma append_snoc (s1 s2 : string) (a : ascii) :
  (s1 +:+ String a "") +:+ s2 = s1 +:+ String a s2.
Proof. by rewrite append_assoc. Qed.

Lemma length_append (s1 s2 : string) :
  String.length (s1 +:+ s2) = String.length s1 + String.length s2.
Proof. induction s1 as [|a s1 IH]; [done|]. rewrite append_cons. cbn. by rewrite IH. Qed.


Lemma dropBytes_append (p s : string) : dropBytes (String.length p) (p +:+ s) = s.
Proof. induction p as [|a p IH]; [done|]. rewrite append_cons. cbn. exact IH. Qed.

Lemma HasPrefix_append s p :
  HasPrefix s p = true ↔ ∃ rest, s = p +:+ rest.
Proof.
  unfold HasPrefix. revert s. induction p as [|a p IH]; intros s.
  - split; [intros _; exists s; reflexivity | intros _; by destruct s].
  - destruct s as [|b s]; cbn.
    + split; [discriminate | intros [rest Hr]; discriminate].
    + destruct (ascii_dec a b) as [->|Hne].
      * rewrite IH. split; intros [rest Hr]; exists rest.
        -- by rewrite append_cons, Hr.
        -- rewrite append_cons in Hr. congruence.
      * split; [discriminate | intros [rest Hr]]. rewrite append_cons in Hr. congruence.
Qed.

Lemma TrimPrefix_not_prefix s p : HasPrefix s p = false → TrimPrefix s p = s.
Proof. intros Hp. unfold TrimPrefix. by rewrite Hp. Qed.


(** ** The maximal runs found by [FindAllString] *)

Lemma allIn_append cls s1 s2 : allIn cls (s1 +:+ s2) = allIn cls s1 && allIn cls s2.
Proof. induction s1 as [|a s1 IH]; [done|]. rewrite append_cons. cbn. by rewrite IH, andb_assoc. Qed.

Lemma lastIn_cons cls a s : s ≠ "" → lastIn cls (String a s) = lastIn cls s.
Proof. by destruct s. Qed.






(** ** [setArgument] *)



Lemma flagOf_elem table m flag :
  NoDup table.*1 → flagOf table m = Some flag ↔ (m, flag) ∈ table.
Proof.
  induction table as [|[kw f] rest IH]; intros Hnd.
  - cbn. split; [discriminate | by intros ?%elem_of_nil].
  - cbn in Hnd. apply NoDup_cons in Hnd as [Hkw Hnd]. cbn [flagOf].
    rewrite elem_of_cons. destruct (String.eqb m kw) eqn:E.
    + apply String.eqb_eq in E as ->. split.
      * intros [= ->]. by left.
      * intros [[= ->] | Hin]; [done|].
        exfalso. apply Hkw. apply list_elem_of_fmap. by exists (kw, flag).
    + apply String.eqb_neq in E. rewrite (IH Hnd). split; [by right|].
      intros [[= -> _] | Hin]; done.
Qed.

Lemma upperCase_table number m : upperCase number m = orFlag upperKeywords number m.
Proof.
  unfold upperCase, orFlag, upperKeywords, flagOf, oneOf, existsb.
  repeat (rewrite ?orb_false_r; destruct (String.eqb m _); [reflexivity|]).
  reflexivity.
Qed.

Lemma lowerCase_table number m : lowerCase number m = orFlag lowerKeywords number m.
Proof.
  unfold lowerCase, orFlag, lowerKeywords, flagOf, oneOf, existsb.
  rewrite orb_false_r. by destruct (String.eqb m _).
Qed.

Lemma upperKeywords_ok : tableOk upperClass upperKeywords.
Proof.
  split.
  - apply (bool_decide_unpack _). vm_compute. exact I.
  - unfold upperKeywords.
    repeat (constructor;
            [split_and!; [discriminate | reflexivity | eexists; split; [|reflexivity]; lia]|]).
    constructor.
Qed.

Lemma lowerKeywords_ok : tableOk lowerClass lowerKeywords.
Proof.
  split.
  - apply (bool_decide_unpack _). vm_compute. exact I.
  - unfold lowerKeywords.
    repeat (constructor;
            [split_and!; [discriminate | reflexivity | eexists; split; [|reflexivity]; lia]|]).
    constructor.
Qed.



Lemma foldl_pointwise {A B} (f g : A → B → A) (l : list B) (a : A) :
  (∀ a b, f a b = g a b) → foldl f a l = foldl g a l.
Proof.
  intros Hfg. revert a. induction l as [|b l IH]; intros a; [done|].
  cbn. by rewrite Hfg, IH.
Qed.


(** A usage line without the chain in front makes the loop return. *)
Lemma classifyLines_mismatch chainString lines line number :
  line ∈ lines →
  HasPrefix (TrimSpace line) chainString = false →
  classifyLines chainString lines number = None.
Proof.
  intros Hin Hp. revert number. induction lines as [|l lines IH]; intros number.
  - by apply elem_of_nil in Hin.
  - cbn [classifyLines]. apply elem_of_cons in Hin as [<- | Hin].
    + rewrite TrimPrefix_not_prefix by done. by rewrite String.eqb_refl.
    + destruct (String.eqb _ _); [done | by apply IH].
Qed.




(** ** [Forge] *)

Lemma Forge_arg (chain : list string) (cmd : string) :
  removelast (chain ++ [cmd] ++ ["--help"]) = chain ++ [cmd].
Proof. rewrite app_assoc. apply removelast_last. Qed.

Lemma optionPairs_helpMessage ρ c c' :
  helpMessage c = helpMessage c' → optionPairs ρ c = optionPairs ρ c'.
Proof. intros E. unfold optionPairs. by rewrite E. Qed.

Lemma subcommandPairs_helpMessage ρ c c' :
  helpMessage c = helpMessage c' → subcommandPairs ρ c = subcommandPairs ρ c'.
Proof. intros E. unfold subcommandPairs. by rewrite E. Qed.

Lemma setArgument_fields ρ c :
  Chain (setArgument ρ c) = Chain c ∧ Desc (setArgument ρ c) = Desc c
  ∧ Options (setArgument ρ c) = Options c ∧ Subcommands (setArgument ρ c) = Subcommands c
  ∧ helpMessage (setArgument ρ c) = helpMessage c.
Proof. unfold setArgument. by destruct (classifyLines _ _ _). Qed.

(** The node of [Forge] after [setArgument]. *)
Lemma setArgument_newCommand ρ arg desc msg :
  setArgument ρ (newCommand arg desc msg)
  = mkCommand arg desc (Arguments (setArgument ρ (newCommand arg desc msg))) [] [] msg.
Proof. unfold setArgument. by destruct (classifyLines _ _ _). Qed.

(** [Forge] with fuel left, one call unfolded: the node is built field by
    field from the results of the three builders. *)
Lemma Forge_unfold exec ρ fuel cmd chain desc :
  Forge exec ρ (S fuel) cmd chain desc
  = match exec (chain ++ [cmd] ++ ["--help"]) with
    | Failed detail => Ret (None, Some (ExecError detail))
    | Output msg =>
        let arg := chain ++ [cmd] in
        let c := newCommand arg desc msg in
        let number := Arguments (setArgument ρ c) in
        pairs ← optionPairs ρ c;
        match optionsLoop (Join arg " ") pairs [] with
        | (options, Some err) => Ret (Some (mkCommand arg desc number options [] msg), Some err)
        | (options, None) =>
            pairs ← subcommandPairs ρ c;
            r ← subcommandsLoop (Forge exec ρ fuel) arg (Join arg " ") pairs [];
            Ret (Some (mkCommand arg desc number options r.1 msg), r.2)
        end
    end.
Proof.
  cbn [Forge]. destruct (exec _) as [msg | detail]; [|reflexivity].
  rewrite Forge_arg. cbn zeta.
  rewrite (setArgument_newCommand ρ (chain ++ [cmd]) desc msg).
  set (number := Arguments (setArgument ρ (newCommand (chain ++ [cmd]) desc msg))).
  unfold setOptions.
  rewrite (optionPairs_helpMessage ρ _ (newCommand (chain ++ [cmd]) desc msg)) by reflexivity.
  destruct (optionPairs ρ _) as [pairs| |]; [|reflexivity..].
  cbn [mbind outcome_bind mret outcome_ret Options Chain ChainString].
  destruct (optionsLoop _ pairs []) as [options [err|]]; [reflexivity|].
  cbn [mbind outcome_bind mret outcome_ret]. unfold setSubcommands.
  rewrite (subcommandPairs_helpMessage ρ _ (newCommand (chain ++ [cmd]) desc msg)) by reflexivity.
  destruct (subcommandPairs ρ _) as [spairs| |]; [|reflexivity..].
  cbn [mbind outcome_bind mret outcome_ret withOptions Subcommands Chain ChainString].
  destruct (subcommandsLoop _ _ _ spairs []) as [[subs oe]| |]; reflexivity.
Qed.

(** The loop of [setOptions] stops with an error only at a continuation
    line met while the list is empty, and then leaves the list empty. *)
Lemma optionsLoop_error chainString pairs options options' err :
  optionsLoop chainString pairs options = (options', Some err) →
  err = OptionsError chainString ∧ options' = [].
Proof.
  revert options. induction pairs as [|p rest IH]; intros options E.
  - discriminate.
  - cbn [optionsLoop] in E. destruct (parseFlags _) as [long short].
    destruct (String.eqb _ _).
    + destruct options as [|o os]; [by inversion E|]. by apply IH in E.
    + by apply IH in E.
Qed.

Lemma optionsLoop_continuation_first chainString p rest :
  TrimSpace p.1 = "" →
  optionsLoop chainString (p :: rest) [] = ([], Some (OptionsError chainString)).
Proof.
  intros E. cbn [optionsLoop]. rewrite E. by destruct (parseFlags _).
Qed.

Lemma subcommandsLoop_continuation_first forge chain chainString p rest :
  TrimSpace p.1 = "" →
  subcommandsLoop forge chain chainString (p :: rest) []
  = Ret ([], Some (SubcommandsError chainString)).
Proof. intros E. cbn [subcommandsLoop]. by rewrite E. Qed.

(** C1 (amended): what a returning call of [Forge] hands to its caller.  It
    never returns neither node nor error.  It returns no node exactly when
    the process fails, and then the error of the process.  With a nil error
    it returns a node whose chain, description, help text and argument mask
    are set and whose options and subcommands are the lists the two loops
    built to their end.  When one of the two loops fails, the error comes
    together with the node as built until then. *)
Theorem Forge_returns_node_or_error
    (exec : list string → output) (ρ : RangeOrder) (fuel : nat) (cmd : string)
    (chain : list string) (desc : string) (oc : option Command) (oe : option error) :
  Forge exec ρ fuel cmd chain desc = Ret (oc, oe) →
  let arg := chain ++ [cmd] in
  let c := newCommand arg desc in
  (oc ≠ None ∨ oe ≠ None)
  ∧ (oc = None ↔ ∃ detail, exec (arg ++ ["--help"]) = Failed detail)
  ∧ (∀ detail, exec (arg ++ ["--help"]) = Failed detail → oe = Some (ExecError detail))
  ∧ (∀ msg, exec (arg ++ ["--help"]) = Output msg →
       ∃ pairs options subcommands,
         oc = Some (mkCommand arg desc (Arguments (setArgument ρ (c msg)))
                      options subcommands msg)
         ∧ optionPairs ρ (c msg) = Ret pairs
         ∧ ((optionsLoop (Join arg " ") pairs [] = (options, oe)
             ∧ oe = Some (OptionsError (Join arg " "))
             ∧ options = [] ∧ subcommands = [])
            ∨ (optionsLoop (Join arg " ") pairs [] = (options, None)
               ∧ ∃ spairs, subcommandPairs ρ (c msg) = Ret spairs
                   ∧ subcommandsLoop (Forge exec ρ (pred fuel)) arg (Join arg " ") spairs []
                     = Ret (subcommands, oe)))).
Proof.
  intros E arg c. destruct fuel as [|fuel]; [discriminate|].
  rewrite Forge_unfold in E. fold arg in E. cbn [pred].
  replace (arg ++ ["--help"]) with (chain ++ [cmd] ++ ["--help"])
    by (unfold arg; by rewrite <- app_assoc).
  destruct (exec (chain ++ [cmd] ++ ["--help"])) as [msg | detail].
  - cbn zeta in E. fold (c msg) in E.
    destruct (optionPairs ρ (c msg)) as [pairs| |] eqn:Ep; try discriminate.
    cbn [mbind outcome_bind] in E.
    destruct (optionsLoop (Join arg " ") pairs []) as [options [err|]] eqn:Eo.
    + inversion E; subst oc oe. split_and!.
      * by left.
      * split; [discriminate | intros [? ?]; discriminate].
      * intros ? ?; discriminate.
      * intros ? [= <-]. exists pairs, options, []. split_and!; [done | done |].
        left. by destruct (optionsLoop_error _ _ _ _ _ Eo) as [-> ->].
    + destruct (subcommandPairs ρ (c msg)) as [spairs| |] eqn:Es; try discriminate.
      cbn [mbind outcome_bind] in E.
      destruct (subcommandsLoop _ arg _ spairs []) as [[subs oe']| |] eqn:El; try discriminate.
      cbn [mbind outcome_bind fst snd] in E. inversion E; subst oc oe. split_and!.
      * by left.
      * split; [discriminate | intros [? ?]; discriminate].
      * intros ? ?; discriminate.
      * intros ? [= <-]. exists pairs, options, subs. split_and!; [done | done |].
        right. split; [done|]. by exists spairs.
  - inversion E; subst oc oe. split_and!.
    + by right.
    + split; [intros _; by exists detail | done].
    + by intros ? [= <-].
    + intros ? ?; discriminate.
Qed.

(** C9 (amended): when the first pair the loop of [setOptions] processes is
    a continuation line, or, the options being built, the first pair the
    loop of [setSubcommands] processes is one, [Forge] returns the
    continuation error to its caller, and the list concerned is empty in the
    node: no Option, respectively no subcommand, came from that line. *)
Theorem continuation_before_first_entry_fails
    (exec : list string → output) (ρ : RangeOrder) (fuel : nat) (cmd : string)
    (chain : list string) (desc msg : string)
    (pairs rest : list (string * string)) (p : string * string)
    (options : list Option.t) (err : error) :
  exec (chain ++ [cmd] ++ ["--help"]) = Output msg →
  TrimSpace p.1 = "" →
  (optionPairs ρ (newCommand (chain ++ [cmd]) desc msg) = Ret (p :: rest)
   ∧ options = [] ∧ err = OptionsError (Join (chain ++ [cmd]) " "))
  ∨ (optionPairs ρ (newCommand (chain ++ [cmd]) desc msg) = Ret pairs
     ∧ optionsLoop (Join (chain ++ [cmd]) " ") pairs [] = (options, None)
     ∧ subcommandPairs ρ (newCommand (chain ++ [cmd]) desc msg) = Ret (p :: rest)
     ∧ err = SubcommandsError (Join (chain ++ [cmd]) " ")) →
  Forge exec ρ (S fuel) cmd chain desc
  = Ret (Some (mkCommand (chain ++ [cmd]) desc
                 (Arguments (setArgument ρ (newCommand (chain ++ [cmd]) desc msg)))
                 options [] msg),
         Some err).
Proof.
  intros He Hp Hcase. rewrite Forge_unfold, He. cbn zeta.
  destruct Hcase as [(Ep & -> & ->) | (Ep & Eo & Es & ->)].
  - rewrite Ep. cbn [mbind outcome_bind].
    by rewrite optionsLoop_continuation_first.
  - rewrite Ep. cbn [mbind outcome_bind]. rewrite Eo, Es. cbn [mbind outcome_bind].
    by rewrite subcommandsLoop_continuation_first.
Qed.

(** ** The order of options and subcommands *)

Lemma updateLast_fmap {A B} (f : A → A) (g : A → B) (l : list A) :
  (∀ x, g (f x) = g x) → g <$> updateLast f l = g <$> l.
Proof.
  intros Hfg. induction l as [|x [|y l] IH]; [done | cbn; by rewrite Hfg |].
  change (updateLast f (x :: y :: l)) with (x :: updateLast f (y :: l)).
  rewrite !fmap_cons. by rewrite IH.
Qed.

Lemma entriesOf_cons_entry p pairs :
  TrimSpace p.1 ≠ "" → entriesOf (p :: pairs) = p :: entriesOf pairs.
Proof. intros Hp. unfold entriesOf. by rewrite filter_cons_True. Qed.

Lemma entriesOf_cons_continuation p pairs :
  TrimSpace p.1 = "" → entriesOf (p :: pairs) = entriesOf pairs.
Proof. intros Hp. unfold entriesOf. rewrite filter_cons_False; [done|]. by intros ?. Qed.

(** The options are the entries of the pairs, in the order of the pairs. *)
Lemma optionsLoop_names chainString pairs options options' :
  optionsLoop chainString pairs options = (options', None) →
  (fun o => (Option.Long o, Option.Short o)) <$> options'
  = ((fun o => (Option.Long o, Option.Short o)) <$> options)
    ++ (optionNames <$> entriesOf pairs).
Proof.
  revert options. induction pairs as [|p rest IH]; intros options E.
  - inversion E. cbn. by rewrite app_nil_r.
  - cbn [optionsLoop] in E. destruct (parseFlags (TrimSpace p.1)) as [long short] eqn:Ef.
    destruct (String.eqb (TrimSpace p.1) "") eqn:Ee.
    + apply String.eqb_eq in Ee. rewrite entriesOf_cons_continuation by done.
      destruct options as [|o os]; [discriminate|].
      rewrite (IH _ E). by rewrite updateLast_fmap.
    + apply String.eqb_neq in Ee. rewrite entriesOf_cons_entry by done.
      rewrite (IH _ E). rewrite fmap_app, fmap_cons. cbn [Option.Long Option.Short fmap list_fmap].
      unfold optionNames at 2. rewrite Ef. by rewrite <- app_assoc.
Qed.

(** The subcommands are forged from the entries of the pairs, in the order
    of the pairs. *)
Lemma subcommandsLoop_chains forge arg chainString pairs subcommands subcommands' :
  (∀ cmd desc sc oe, forge cmd arg desc = Ret (Some sc, oe) → Chain sc = arg ++ [cmd]) →
  subcommandsLoop forge arg chainString pairs subcommands = Ret (subcommands', None) →
  Chain <$> subcommands'
  = (Chain <$> subcommands) ++ (subcommandChain arg <$> entriesOf pairs).
Proof.
  intros Hforge. revert subcommands. induction pairs as [|p rest IH]; intros subcommands E.
  - inversion E. cbn. by rewrite app_nil_r.
  - cbn [subcommandsLoop] in E.
    destruct (String.eqb (TrimSpace p.1) "") eqn:Ee.
    + apply String.eqb_eq in Ee. rewrite entriesOf_cons_continuation by done.
      destruct subcommands as [|s ss]; [discriminate|].
      rewrite (IH _ E). by rewrite updateLast_fmap.
    + apply String.eqb_neq in Ee. rewrite entriesOf_cons_entry by done.
      destruct (forge (TrimSpace p.1) arg (TrimSpace p.2)) as [[[sc|] [err|]]| |] eqn:Er;
        cbn [mbind outcome_bind] in E; try discriminate.
      rewrite (IH _ E). rewrite fmap_app, fmap_cons. cbn [fmap list_fmap].
      rewrite (Hforge _ _ _ _ Er). by rewrite <- app_assoc.
Qed.

Lemma Forge_Chain exec ρ fuel cmd chain desc sc oe :
  Forge exec ρ fuel cmd chain desc = Ret (Some sc, oe) → Chain sc = chain ++ [cmd].
Proof.
  destruct fuel as [|fuel]; [discriminate|]. rewrite Forge_unfold.
  destruct (exec _) as [msg | detail]; [|discriminate]. cbn zeta.
  destruct (optionPairs ρ _) as [pairs| |]; try discriminate. cbn [mbind outcome_bind].
  destruct (optionsLoop _ pairs []) as [options [err|]]; [by intros [= <- _]|].
  destruct (subcommandPairs ρ _) as [spairs| |]; try discriminate. cbn [mbind outcome_bind].
  destruct (subcommandsLoop _ _ _ spairs []) as [[subs oe']| |]; try discriminate.
  cbn [mbind outcome_bind]. by intros [= <- _].
Qed.

(** [Forge] never returns a nil node with a nil error. *)
Lemma Forge_node_or_error exec ρ fuel cmd chain desc oe :
  Forge exec ρ fuel cmd chain desc = Ret (None, oe) → oe ≠ None.
Proof.
  destruct fuel as [|fuel]; [discriminate|]. rewrite Forge_unfold.
  destruct (exec _) as [msg | detail]; [|by intros [= <-]]. cbn zeta.
  destruct (optionPairs ρ _) as [pairs| |]; try discriminate. cbn [mbind outcome_bind].
  destruct (optionsLoop _ pairs []) as [options [err|]]; [discriminate|].
  destruct (subcommandPairs ρ _) as [spairs| |]; try discriminate. cbn [mbind outcome_bind].
  destruct (subcommandsLoop _ _ _ spairs []) as [[subs oe']| |]; discriminate.
Qed.

(** The pairs of one group stand together among the collected pairs. *)
Lemma collectPairs_block ρ (pairsMap : gmap string (list (string * string))) k ps :
  range_ok ρ → pairsMap !! k = Some ps →
  ∃ before after, collectPairs ρ pairsMap = before ++ ps ++ after.
Proof.
  intros Hρ Hk. apply (rangeMap_lookup ρ) in Hk; [|done].
  apply list_elem_of_split in Hk as (l1 & l2 & E). unfold collectPairs. rewrite E.
  rewrite fmap_app, fmap_cons, concat_app. cbn [concat snd].
  by exists (concat l1.*2), (concat l2.*2).
Qed.

Lemma collectPairs_singleton ρ k (ps : list (string * string)) :
  range_ok ρ → collectPairs ρ {[ k := ps ]} = ps.
Proof.
  intros Hρ. unfold collectPairs. rewrite rangeMap_singleton by done.
  cbn. by rewrite app_nil_r.
Qed.

Lemma collectPairs_empty ρ : range_ok ρ → collectPairs ρ ∅ = [].
Proof. intros Hρ. unfold collectPairs. by rewrite rangeMap_empty. Qed.

(** The pairs of a section with a single group. *)
Lemma pairs_of_one_group ρ (linesMap : gmap string (list string)) k line lines :
  range_ok ρ →
  linesMap = {[ k := line :: lines ]} →
  (splitDescription ρ linesMap ≫= fun pairsMap => mret (collectPairs ρ pairsMap))
  = if fitsColumn (descHeadIndexOf ρ (line :: lines)) (line :: lines)
    then Ret (cutGroup ρ (line :: lines)) else Panic.
Proof.
  intros Hρ ->. destruct (fitsColumn _ _) eqn:Hfit.
  - rewrite splitDescription_singleton by done. cbn [mbind outcome_bind].
    by rewrite collectPairs_singleton.
  - by rewrite splitDescription_singleton_short.
Qed.

Lemma pairs_of_no_group ρ (linesMap : gmap string (list string)) :
  range_ok ρ → linesMap = ∅ →
  (splitDescription ρ linesMap ≫= fun pairsMap => mret (collectPairs ρ pairsMap)) = Ret [].
Proof.
  intros Hρ ->. rewrite splitDescription_empty by done. cbn [mbind outcome_bind].
  by rewrite collectPairs_empty.
Qed.

(** The groups of the scanner are never empty. *)
Lemma scanStep_nonempty markers st line :
  map_Forall (fun _ g => g ≠ []) st.2 →
  map_Forall (fun _ g => g ≠ []) (scanStep markers st line).2.
Proof.
  destruct st as [cur linesMap]. cbn [snd]. intros Hm. unfold scanStep.
  assert (Happ : ∀ k x, map_Forall (fun _ (g : list string) => g ≠ []) (appendAt linesMap k x)).
  { intros k x. unfold appendAt. apply map_Forall_insert_2; [|done].
    by destruct (default [] (linesMap !! k)). }
  destruct (isBlank line); [done|].
  destruct (hitMarker markers line).
  - destruct (String.eqb _ _); cbn [snd]; [done | apply Happ].
  - destruct (String.eqb _ _); cbn [snd]; [done | apply Happ].
Qed.

Lemma scanHelpMessage_nonempty msg markers k :
  scanHelpMessage msg markers !! k ≠ Some [].
Proof.
  unfold scanHelpMessage.
  assert (Hgen : ∀ lines st, map_Forall (fun _ g => g ≠ []) st.2 →
            map_Forall (fun _ g => g ≠ []) (scanFrom markers st lines).2).
  { induction lines as [|l ls IH]; intros st Hst; [done|].
    rewrite scanFrom_cons. apply IH. by apply scanStep_nonempty. }
  intros E. by apply (Hgen (scannerLines msg) ("", ∅) (map_Forall_empty _) k []).
Qed.

(** The pairs of the options: the "Options:" group, cut. *)
Lemma optionPairs_Ret ρ c pairs :
  range_ok ρ → optionPairs ρ c = Ret pairs →
  pairs = cutGroup ρ (groupOf (helpMessage c) ["Options:"] "Options:").
Proof.
  intros Hρ. unfold optionPairs, groupOf.
  destruct (scanHelpMessage_one_marker (helpMessage c) "Options:") as [E | [lines E]].
  - rewrite E, lookup_empty, pairs_of_no_group by done. by intros [= <-].
  - destruct lines as [|line lines].
    { exfalso. apply (scanHelpMessage_nonempty (helpMessage c) ["Options:"] "Options:").
      by rewrite E, lookup_singleton_eq. }
    rewrite E, lookup_singleton_eq. rewrite (pairs_of_one_group ρ _ "Options:" line lines) by done.
    destruct (fitsColumn _ _); [by intros [= <-] | discriminate].
Qed.

(** C2 (amended): in the node a successful [Forge] returns, the options are
    the entries of the "Options:" group in the order of that group; the
    subcommands are the entries of the collected pairs in their order, and
    in that list the subcommands of each marker's group stand together in
    the order of the group; every group lists its lines in the order of the
    help text.  With a single subcommand group the subcommands are therefore
    in the order of the text; the groups of several markers follow each
    other in the order the [range] over the map visits them. *)
Theorem options_and_subcommands_keep_group_order
    (exec : list string → output) (ρ : RangeOrder) (fuel : nat) (cmd : string)
    (chain : list string) (desc msg : string) (node : Command) :
  range_ok ρ →
  exec (chain ++ [cmd] ++ ["--help"]) = Output msg →
  Forge exec ρ fuel cmd chain desc = Ret (Some node, None) →
  (fun o => (Option.Long o, Option.Short o)) <$> Options node
  = optionNames <$> entriesOf (cutGroup ρ (groupOf msg ["Options:"] "Options:"))
  ∧ (∃ pairsMap,
        splitDescription ρ (scanHelpMessage msg subcommandMarkers) = Ret pairsMap
        ∧ Chain <$> Subcommands node
          = subcommandChain (chain ++ [cmd]) <$> entriesOf (collectPairs ρ pairsMap))
  ∧ (∀ marker, ∃ before after,
        Chain <$> Subcommands node
        = before
          ++ (subcommandChain (chain ++ [cmd])
                <$> entriesOf (cutGroup ρ (groupOf msg subcommandMarkers marker)))
          ++ after)
  ∧ (∀ markers marker, ∃ picked,
        sublist picked (scannerLines msg)
        ∧ Forall2 (takenFrom marker) (groupOf msg markers marker) picked).
Proof.
  intros Hρ He E.
  destruct fuel as [|fuel]; [discriminate|]. rewrite Forge_unfold, He in E. cbn zeta in E.
  destruct (optionPairs ρ _) as [pairs| |] eqn:Ep; try discriminate.
  cbn [mbind outcome_bind] in E.
  destruct (optionsLoop _ pairs []) as [options [err|]] eqn:Eo; [discriminate|].
  unfold subcommandPairs in E. cbn [helpMessage newCommand] in E.
  destruct (splitDescription ρ (scanHelpMessage msg subcommandMarkers)) as [pairsMap| |] eqn:Es;
    try discriminate.
  cbn [mbind outcome_bind mret outcome_ret] in E.
  destruct (subcommandsLoop _ _ _ _ []) as [[subs oe]| |] eqn:El; try discriminate.
  cbn [mbind outcome_bind fst snd] in E. inversion E; subst node oe. clear E.
  cbn [Options Subcommands].
  assert (Hsubs : Chain <$> subs
                  = subcommandChain (chain ++ [cmd]) <$> entriesOf (collectPairs ρ pairsMap)).
  { rewrite (subcommandsLoop_chains _ _ _ _ _ _
               (fun cmd' desc' => Forge_Chain exec ρ fuel cmd' (chain ++ [cmd]) desc') El).
    reflexivity. }
  split_and!.
  - rewrite (optionsLoop_names _ _ _ _ Eo). cbn.
    apply optionPairs_Ret in Ep; [|done]. by rewrite Ep.
  - by exists pairsMap.
  - intros marker. rewrite Hsubs.
    pose proof (splitDescription_lookup ρ _ _ marker Hρ Es) as Hk.
    unfold groupOf. rewrite <- Hk.
    destruct (pairsMap !! marker) as [ps|] eqn:Em; cbn [default from_option id].
    + destruct (collectPairs_block ρ pairsMap marker ps Hρ Em) as (b & a & ->).
      unfold entriesOf. rewrite !filter_app, !fmap_app. eauto.
    + eexists _, []. cbn. by rewrite !app_nil_r.
  - intros markers marker. apply scanHelpMessage_group_order.
Qed.

(** ** The fuel of [Forge] *)

(** A call that returned or panicked does the same with more fuel. *)
Lemma subcommandsLoop_more_fuel
    (forge forge' : string → list string → string → outcome forged)
    chain chainString pairs subcommands r :
  (∀ cmd desc r, forge cmd chain desc = r → r ≠ OutOfFuel → forge' cmd chain desc = r) →
  subcommandsLoop forge chain chainString pairs subcommands = r → r ≠ OutOfFuel →
  subcommandsLoop forge' chain chainString pairs subcommands = r.
Proof.
  intros Hforge. revert subcommands.
  induction pairs as [|p rest IH]; intros subcommands E Hr; [done|].
  cbn [subcommandsLoop] in *. destruct (String.eqb (TrimSpace p.1) "").
  - destruct subcommands; [done | by apply IH].
  - destruct (forge (TrimSpace p.1) chain (TrimSpace p.2)) as [[oc oe]| |] eqn:Ef.
    + rewrite (Hforge _ _ _ Ef) by done. cbn [mbind outcome_bind] in *.
      destruct oe; [done|]. destruct oc; [by apply IH | done].
    + by rewrite (Hforge _ _ _ Ef).
    + cbn in E. by subst r.
Qed.

Lemma Forge_more_fuel exec ρ fuel cmd chain desc r :
  Forge exec ρ fuel cmd chain desc = r → r ≠ OutOfFuel →
  Forge exec ρ (S fuel) cmd chain desc = r.
Proof.
  revert cmd chain desc r. induction fuel as [|fuel IH]; intros cmd chain desc r E Hr.
  - cbn in E. by subst r.
  - rewrite Forge_unfold in E. rewrite Forge_unfold.
    destruct (exec _) as [msg | detail]; [|done]. cbn zeta in *.
    destruct (optionPairs ρ _) as [pairs| |]; [|done..]. cbn [mbind outcome_bind] in *.
    destruct (optionsLoop _ pairs []) as [options [err|]]; [done|].
    destruct (subcommandPairs ρ _) as [spairs| |]; [|done..]. cbn [mbind outcome_bind] in *.
    destruct (subcommandsLoop (Forge exec ρ fuel) _ _ spairs []) as [[subs oe]| |] eqn:El.
    + by rewrite (subcommandsLoop_more_fuel _ (Forge exec ρ (S fuel)) _ _ _ _ _
                    (fun cmd' desc' r' => IH cmd' _ desc' r') El).
    + by rewrite (subcommandsLoop_more_fuel _ (Forge exec ρ (S fuel)) _ _ _ _ _
                    (fun cmd' desc' r' => IH cmd' _ desc' r') El).
    + cbn in E. by subst r.
Qed.

(** ** Evaluating the builders on a given help text *)

Ltac vm_eval t :=
  let v := eval vm_compute in t in
  replace t with v by (vm_compute; reflexivity).

Lemma usageLines_group ρ c :
  range_ok ρ → usageLines ρ c = groupOf (helpMessage c) ["Usage:"] "Usage:".
Proof.
  intros Hρ. unfold usageLines, firstGroup, groupOf.
  destruct (scanHelpMessage_one_marker (helpMessage c) "Usage:") as [E | [lines E]]; rewrite E.
  - rewrite rangeMap_empty by done. by rewrite lookup_empty.
  - rewrite rangeMap_singleton by done. by rewrite lookup_singleton_eq.
Qed.

Lemma setArgument_Arguments ρ c :
  range_ok ρ →
  Arguments (setArgument ρ c)
  = default (Arguments c)
      (classifyLines (ChainString c) (groupOf (helpMessage c) ["Usage:"] "Usage:") 0).
Proof.
  intros Hρ. unfold setArgument. rewrite usageLines_group by done.
  by destruct (classifyLines _ _ _).
Qed.

Lemma fitsColumn_nil i : fitsColumn i [] = true.
Proof. reflexivity. Qed.

Lemma optionPairs_group ρ c :
  range_ok ρ →
  optionPairs ρ c
  = if fitsColumn (descHeadIndexOf ρ (groupOf (helpMessage c) ["Options:"] "Options:"))
         (groupOf (helpMessage c) ["Options:"] "Options:")
    then Ret (cutGroup ρ (groupOf (helpMessage c) ["Options:"] "Options:"))
    else Panic.
Proof.
  intros Hρ. unfold optionPairs, groupOf.
  destruct (scanHelpMessage_one_marker (helpMessage c) "Options:") as [E | [lines E]].
  - rewrite E, lookup_empty, pairs_of_no_group by done. reflexivity.
  - destruct lines as [|line lines].
    { exfalso. apply (scanHelpMessage_nonempty (helpMessage c) ["Options:"] "Options:").
      by rewrite E, lookup_singleton_eq. }
    rewrite E, lookup_singleton_eq. by rewrite (pairs_of_one_group ρ _ "Options:" line lines).
Qed.

Lemma subcommandPairs_no_group ρ c :
  range_ok ρ → scanHelpMessage (helpMessage c) subcommandMarkers = ∅ →
  subcommandPairs ρ c = Ret [].
Proof. intros Hρ E. unfold subcommandPairs. by apply pairs_of_no_group. Qed.

Lemma subcommandPairs_one_group ρ c marker line lines :
  range_ok ρ →
  scanHelpMessage (helpMessage c) subcommandMarkers = {[ marker := line :: lines ]} →
  subcommandPairs ρ c
  = if fitsColumn (descHeadIndexOf ρ (line :: lines)) (line :: lines)
    then Ret (cutGroup ρ (line :: lines)) else Panic.
Proof. intros Hρ E. unfold subcommandPairs. by apply (pairs_of_one_group ρ _ marker). Qed.

(** A line shorter than the column of its group makes [splitDescription]
    panic, whatever the order of the loops. *)
Lemma splitGroups_returns_or_panics ρ groups pairsMap :
  splitGroups ρ groups pairsMap ≠ OutOfFuel.
Proof.
  revert pairsMap. induction groups as [|[key lines] rest IH]; intros pairsMap; [done|].
  cbn [splitGroups].
  destruct (fitsColumn (descHeadIndexOf ρ lines) lines) eqn:Hfit.
  - rewrite splitLines_fits by done. apply IH.
  - by rewrite splitLines_short.
Qed.

Lemma splitDescription_short_line ρ (linesMap : gmap string (list string)) k lines :
  range_ok ρ →
  linesMap !! k = Some lines →
  fitsColumn (descHeadIndexOf ρ lines) lines = false →
  splitDescription ρ linesMap = Panic.
Proof.
  intros Hρ Hk Hfit.
  destruct (splitDescription ρ linesMap) as [pairsMap| |] eqn:E; [|done|].
  - rewrite (splitDescription_fits ρ linesMap pairsMap k lines Hρ E Hk) in Hfit. discriminate.
  - by apply splitGroups_returns_or_panics in E.
Qed.

Lemma Forge_Arguments exec ρ fuel cmd chain desc msg node oe :
  exec (chain ++ [cmd] ++ ["--help"]) = Output msg →
  Forge exec ρ fuel cmd chain desc = Ret (Some node, oe) →
  Arguments node = Arguments (setArgument ρ (newCommand (chain ++ [cmd]) desc msg)).
Proof.
  intros He. destruct fuel as [|fuel]; [discriminate|]. rewrite Forge_unfold, He. cbn zeta.
  destruct (optionPairs ρ _) as [pairs| |]; try discriminate. cbn [mbind outcome_bind].
  destruct (optionsLoop _ pairs []) as [options [err|]]; [by intros [= <- _]|].
  destruct (subcommandPairs ρ _) as [spairs| |]; try discriminate. cbn [mbind outcome_bind].
  destruct (subcommandsLoop _ _ _ spairs []) as [[subs oe']| |]; try discriminate.
  cbn [mbind outcome_bind]. by intros [= <- _].
Qed.

(** ** The scenarios *)

(** C5: Scenario A.  For the help text of [docker rm], whatever the
    description passed and the order of the loops over maps, [Forge] returns
    the node of chain [docker rm] whose argument mask is the container flag
    and whose only option is [--force], [-f], "Force the removal". *)
Theorem scenario_A_container_flag_and_force_option
    (exec : list string → output) (ρ : RangeOrder) (fuel : nat) (desc : string) :
  range_ok ρ →
  exec ["docker"; "rm"; "--help"] = Output helpRm →
  Forge exec ρ (S fuel) "rm" ["docker"] desc
  = Ret (Some (mkCommand ["docker"; "rm"] desc ArgumentNumberDockerContainer
                 [Option.Build "Force the removal" "force" "f"] [] helpRm),
         None).
Proof.
  intros Hρ He. rewrite Forge_unfold.
  change (["docker"] ++ ["rm"] ++ ["--help"]) with ["docker"; "rm"; "--help"].
  rewrite He. cbn zeta. change (["docker"] ++ ["rm"]) with ["docker"; "rm"].
  rewrite setArgument_Arguments by done.
  match goal with |- context [default ?a ?b] => vm_eval (default a b) end.
  rewrite optionPairs_group by done. cbn [helpMessage newCommand].
  vm_eval (groupOf helpRm ["Options:"] "Options:").
  unfold cutGroup.
  rewrite (descHeadIndexOf_single ρ _ 15 0) by (done || (vm_compute; reflexivity)).
  vm_eval (fitsColumn 15 ["-f, --force    Force the removal"]).
  cbn [mbind outcome_bind].
  match goal with |- context [optionsLoop ?a ?b ?c] => vm_eval (optionsLoop a b c) end.
  rewrite subcommandPairs_no_group by (done || (vm_compute; reflexivity)).
  reflexivity.
Qed.

Lemma scenario_A_container_flag_and_force_option_witness :
  range_ok inOrder
  ∧ execRm ["docker"; "rm"; "--help"] = Output helpRm
  ∧ Forge execRm inOrder 1 "rm" ["docker"] "Remove one or more containers"
    = Ret (Some (mkCommand ["docker"; "rm"] "Remove one or more containers"
                   ArgumentNumberDockerContainer
                   [Option.Build "Force the removal" "force" "f"] [] helpRm),
           None).
Proof.
  split; [exact range_ok_inOrder|]. split; [reflexivity|].
  apply (scenario_A_container_flag_and_force_option execRm inOrder 0);
    [exact range_ok_inOrder | reflexivity].
Defined.

(** Scenario B, for any help texts of the two subcommands: the node has an
    empty argument mask and the two nodes forged for [connect] and
    [create], in that order. *)
Lemma scenario_B_two_subcommands
    (exec : list string → output) (ρ : RangeOrder) (fuel : nat) (desc : string)
    (connect create : Command) :
  range_ok ρ →
  exec ["docker"; "network"; "--help"] = Output helpNetwork →
  Forge exec ρ fuel "connect" ["docker"; "network"] "Connect a container to a network"
  = Ret (Some connect, None) →
  Forge exec ρ fuel "create" ["docker"; "network"] "Create a network"
  = Ret (Some create, None) →
  Forge exec ρ (S fuel) "network" ["docker"] desc
  = Ret (Some (mkCommand ["docker"; "network"] desc 0 [] [connect; create] helpNetwork),
         None).
Proof.
  intros Hρ He Hconnect Hcreate. rewrite Forge_unfold.
  change (["docker"] ++ ["network"] ++ ["--help"]) with ["docker"; "network"; "--help"].
  rewrite He. cbn zeta. change (["docker"] ++ ["network"]) with ["docker"; "network"].
  rewrite setArgument_Arguments by done.
  match goal with |- context [default ?a ?b] => vm_eval (default a b) end.
  rewrite optionPairs_group by done. cbn [helpMessage newCommand].
  vm_eval (groupOf helpNetwork ["Options:"] "Options:").
  rewrite fitsColumn_nil. cbn [mbind outcome_bind cutGroup fmap list_fmap optionsLoop].
  rewrite (subcommandPairs_one_group ρ _ "Commands:"
             "connect  Connect a container to a network" ["create   Create a network"])
    by (done || (vm_compute; reflexivity)).
  unfold cutGroup.
  rewrite (descHeadIndexOf_single ρ _ 9 1) by (done || (vm_compute; reflexivity)).
  match goal with |- context [fitsColumn ?a ?b] => vm_eval (fitsColumn a b) end.
  cbn [mbind outcome_bind].
  match goal with |- context [cutAt 9 <$> ?l] => vm_eval (cutAt 9 <$> l) end.
  cbn [subcommandsLoop fst snd].
  vm_eval (TrimSpace "connect  "). vm_eval (TrimSpace "Connect a container to a network").
  vm_eval (TrimSpace "create   "). vm_eval (TrimSpace "Create a network").
  cbn [String.eqb Ascii.eqb Bool.eqb].
  rewrite Hconnect. cbn [mbind outcome_bind app]. rewrite Hcreate. reflexivity.
Qed.

(** C6: a usage line that, trimmed, does not begin with the chain of the
    node makes [setArgument] return at once and leave the node as it was,
    whatever the earlier lines matched: the classifier has no error to
    report, and the argument mask of the node [Forge] returns is zero. *)
Theorem usage_line_without_chain_empties_mask
    (exec : list string → output) (ρ : RangeOrder) (fuel : nat) (cmd : string)
    (chain : list string) (desc msg line : string) (node : Command) (oe : option error) :
  exec (chain ++ [cmd] ++ ["--help"]) = Output msg →
  line ∈ usageLines ρ (newCommand (chain ++ [cmd]) desc msg) →
  HasPrefix (TrimSpace line) (Join (chain ++ [cmd]) " ") = false →
  Forge exec ρ fuel cmd chain desc = Ret (Some node, oe) →
  setArgument ρ (newCommand (chain ++ [cmd]) desc msg) = newCommand (chain ++ [cmd]) desc msg
  ∧ Arguments node = 0%Z.
Proof.
  intros He Hin Hp E.
  assert (Ea : setArgument ρ (newCommand (chain ++ [cmd]) desc msg)
               = newCommand (chain ++ [cmd]) desc msg).
  { unfold setArgument. by rewrite (classifyLines_mismatch _ _ line). }
  split; [exact Ea|].
  rewrite (Forge_Arguments _ _ _ _ _ _ _ _ _ He E). by rewrite Ea.
Qed.

Lemma usage_line_without_chain_empties_mask_witness :
  execForeignUsage (["docker"] ++ ["rm"] ++ ["--help"]) = Output helpForeignUsage
  ∧ "  docker rm CONTAINER" ∈ usageLines inOrder (newCommand ["docker"; "rm"] "" helpForeignUsage)
  ∧ "  podman rm IMAGE" ∈ usageLines inOrder (newCommand ["docker"; "rm"] "" helpForeignUsage)
  ∧ HasPrefix (TrimSpace "  podman rm IMAGE") (Join ["docker"; "rm"] " ") = false
  ∧ Forge execForeignUsage inOrder 1 "rm" ["docker"] ""
    = Ret (Some (mkCommand ["docker"; "rm"] "" 0 [] [] helpForeignUsage), None)
  ∧ Arguments (mkCommand ["docker"; "rm"] "" 0 [] [] helpForeignUsage) = 0%Z.
Proof.
  assert (H1 : execForeignUsage (["docker"] ++ ["rm"] ++ ["--help"]) = Output helpForeignUsage)
    by reflexivity.
  assert (H2 : "  podman rm IMAGE"
               ∈ usageLines inOrder (newCommand (["docker"] ++ ["rm"]) "" helpForeignUsage)).
  { apply list_elem_of_In. vm_compute. right. left. reflexivity. }
  assert (H3 : HasPrefix (TrimSpace "  podman rm IMAGE") (Join (["docker"] ++ ["rm"]) " ") = false)
    by (vm_compute; reflexivity).
  assert (H4 : Forge execForeignUsage inOrder 1 "rm" ["docker"] ""
               = Ret (Some (mkCommand ["docker"; "rm"] "" 0 [] [] helpForeignUsage), None))
    by (vm_compute; reflexivity).
  split_and!; [exact H1 | | exact H2 | exact H3 | exact H4 |].
  - apply list_elem_of_In. vm_compute. left. reflexivity.
  - exact (proj2 (usage_line_without_chain_empties_mask _ _ _ _ _ _ _ _ _ _ H1 H2 H3 H4)).
Defined.


(** A keyword inside a longer run of its class is not a token: the mask
    stays empty on [CONTAINERS] and on [Dockerfile]. *)
Example keyword_inside_longer_run :
  classifyTrimmed 0 " CONTAINERS MY_IMAGE Dockerfile" = 0%Z.
Proof. vm_compute. reflexivity. Qed.

(** C1, as stated, fails: a continuation line before the first option makes
    [Forge] return the error together with a node that has its chain and
    mask but no options; and when a later subcommand cannot be forged, the
    error comes with the node that already holds the earlier one. *)
Lemma Forge_returns_error_with_partial_node :
  Forge execContinuationFirst inOrder 1 "docker" [] ""
  = Ret (Some (mkCommand ["docker"] "" 0 [] [] helpContinuationFirst),
         Some (OptionsError "docker"))
  ∧ Forge (answers [ (["docker"; "network"; "--help"], helpNetwork);
                     (["docker"; "network"; "connect"; "--help"], helpConnect) ])
      inOrder 2 "network" ["docker"] ""
    = Ret (Some (mkCommand ["docker"; "network"] "" 0 []
                   [ mkCommand ["docker"; "network"; "connect"]
                       "Connect a container to a network"
                       (Z.lor ArgumentNumberDockerNetwork ArgumentNumberDockerContainer)
                       [] [] helpConnect ]
                   helpNetwork),
           Some (ExecError "exit status 1")).
Proof. split; vm_compute; reflexivity. Qed.

Lemma Forge_returns_node_or_error_witness :
  Forge execRm inOrder 1 "rm" ["docker"] ""
  = Ret (Some (mkCommand ["docker"; "rm"] "" ArgumentNumberDockerContainer
                 [Option.Build "Force the removal" "force" "f"] [] helpRm), None)
  ∧ (Some (mkCommand ["docker"; "rm"] "" ArgumentNumberDockerContainer
             [Option.Build "Force the removal" "force" "f"] [] helpRm) ≠ None
     ∨ (None : option error) ≠ None).
Proof.
  assert (H : Forge execRm inOrder 1 "rm" ["docker"] ""
              = Ret (Some (mkCommand ["docker"; "rm"] "" ArgumentNumberDockerContainer
                             [Option.Build "Force the removal" "force" "f"] [] helpRm), None))
    by (vm_compute; reflexivity).
  split; [exact H|].
  exact (proj1 (Forge_returns_node_or_error _ _ _ _ _ _ _ _ H)).
Defined.

(** C2, as stated, fails: the help text lists [builder] before [run], and
    the loop over the map of the two groups may visit the group of [run]
    first; another order gives the order of the text. *)
Lemma subcommands_of_two_sections_not_in_text_order :
  scannerLines helpTwoSections
  = [ "Management Commands:"; "  builder     Manage builds"; "";
      "Commands:"; "  run         Run a command" ]
  ∧ range_ok inOrder ∧ range_ok backwards
  ∧ (∃ node, Forge execTwoSections inOrder 2 "docker" [] "" = Ret (Some node, None)
             ∧ Chain <$> Subcommands node = [["docker"; "run"]; ["docker"; "builder"]])
  ∧ (∃ node, Forge execTwoSections backwards 2 "docker" [] "" = Ret (Some node, None)
             ∧ Chain <$> Subcommands node = [["docker"; "builder"]; ["docker"; "run"]]).
Proof.
  split_and!.
  - vm_compute. reflexivity.
  - exact range_ok_inOrder.
  - exact range_ok_backwards.
  - eexists. split; [vm_compute; reflexivity | reflexivity].
  - eexists. split; [vm_compute; reflexivity | reflexivity].
Qed.

Lemma options_and_subcommands_keep_group_order_witness :
  range_ok inOrder
  ∧ execNetwork (["docker"] ++ ["network"] ++ ["--help"]) = Output helpNetwork
  ∧ ∃ node,
      Forge execNetwork inOrder 2 "network" ["docker"] "" = Ret (Some node, None)
      ∧ Chain <$> Subcommands node
        = [["docker"; "network"; "connect"]; ["docker"; "network"; "create"]]
      ∧ ∃ pairsMap,
          splitDescription inOrder (scanHelpMessage helpNetwork subcommandMarkers) = Ret pairsMap
          ∧ Chain <$> Subcommands node
            = subcommandChain (["docker"] ++ ["network"])
                <$> entriesOf (collectPairs inOrder pairsMap).
Proof.
  split; [exact range_ok_inOrder|]. split; [reflexivity|].
  eexists. split; [vm_compute; reflexivity|]. split; [reflexivity|].
  refine (proj1 (proj2 (options_and_subcommands_keep_group_order
                          execNetwork inOrder 2 "network" ["docker"] "" helpNetwork _
                          range_ok_inOrder eq_refl _))).
  vm_compute. reflexivity.
Defined.

Lemma blank_line_ends_group_and_marker_resumes_it_witness :
  scanFrom ["Options:"] ("", ∅)
    ("Options:" :: ["-a  Alpha"] ++ "" :: ["stray line"] ++ "Options:" :: ["-b  Beta"])
  = ("Options:", appendAll ∅ "Options:" (["-a  Alpha"] ++ ["-b  Beta"])).
Proof.
  refine (proj2 (blank_line_ends_group_and_marker_resumes_it
                   ["Options:"] "Options:" "Options:" "Options:" ""
                   ["-a  Alpha"] ["stray line"] ["-b  Beta"] "" ∅ _ _ _ _ _ _ _));
    (reflexivity || discriminate).
Defined.

(** C4, as stated, fails: the two occurrences of "Options:", a blank line
    apart, give one group, which holds the lines of both. *)
Lemma same_marker_twice_gives_one_group :
  scannerLines helpMarkerTwice
  = ["Options:"; "-a  Alpha"; ""; "stray line"; "Options:"; "-b  Beta"]
  ∧ scanHelpMessage helpMarkerTwice ["Options:"]
    = {[ "Options:" := ["-a  Alpha"; "-b  Beta"] ]}
  ∧ size (scanHelpMessage helpMarkerTwice ["Options:"]) = 1.
Proof. split_and!; vm_compute; reflexivity. Qed.

Lemma continuation_before_first_entry_fails_witness :
  execContinuationFirst ([] ++ ["docker"] ++ ["--help"]) = Output helpContinuationFirst
  ∧ TrimSpace ("              ", "Continued text").1 = ""
  ∧ Forge execContinuationFirst inOrder 1 "docker" [] ""
    = Ret (Some (mkCommand ([] ++ ["docker"]) ""
                   (Arguments (setArgument inOrder
                                 (newCommand ([] ++ ["docker"]) "" helpContinuationFirst)))
                   [] [] helpContinuationFirst),
           Some (OptionsError (Join ([] ++ ["docker"]) " "))).
Proof.
  assert (H1 : execContinuationFirst ([] ++ ["docker"] ++ ["--help"])
               = Output helpContinuationFirst) by reflexivity.
  assert (H2 : TrimSpace ("              ", "Continued text").1 = "")
    by (vm_compute; reflexivity).
  split; [exact H1|]. split; [exact H2|].
  apply (continuation_before_first_entry_fails execContinuationFirst inOrder 0 "docker" [] ""
           helpContinuationFirst [] [("-h, --help    ", "Print usage")]
           ("              ", "Continued text") [] _ H1 H2).
  left. split_and!; [vm_compute; reflexivity | reflexivity | reflexivity].
Defined.

(** C9, as stated, fails: the section "Management Commands:" opens with a
    continuation line; when the loop visits the group of "Commands:" first,
    that line extends the description of [run] and [Forge] succeeds. *)
Lemma continuation_opening_a_later_section_is_accepted :
  range_ok inOrder
  ∧ groupOf helpSectionOpensContinued subcommandMarkers "Management Commands:"
    = ["              Continued text"; "  builder     Manage builds"]
  ∧ cutGroup inOrder ["              Continued text"; "  builder     Manage builds"]
    = [("              ", "Continued text"); ("  builder     ", "Manage builds")]
  ∧ TrimSpace "              " = ""
  ∧ Forge execSectionOpensContinued inOrder 2 "docker" [] ""
    = Ret (Some (mkCommand ["docker"] "" 0 []
                   [ mkCommand ["docker"; "run"] "Run a command Continued text" 0 [] [] helpLeaf;
                     mkCommand ["docker"; "builder"] "Manage builds" 0 [] [] helpLeaf ]
                   helpSectionOpensContinued),
           None).
Proof.
  split; [exact range_ok_inOrder|]. split_and!; vm_compute; reflexivity.
Qed.

(** C7: Scenario C.  The continuation line "  information" has 13 bytes and
    the column of the descriptions is 14: slicing it panics, in
    [setOptions] and so in [Forge]; no Option is built. *)
Theorem scenario_C_short_continuation_line_panics :
  descHeadIndexOf inOrder ["-h, --help    Print usage"; "  information"] = 14
  ∧ String.length "  information" = 13
  ∧ setOptions inOrder (newCommand ["docker"] "" helpContinued) = Panic
  ∧ Forge execContinued inOrder 1 "docker" [] "" = Panic.
Proof. split_and!; vm_compute; reflexivity. Qed.

(** Scenario C panics whatever the order of the loops over maps. *)
Lemma scenario_C_panics_in_any_order ρ c :
  range_ok ρ → helpMessage c = helpContinued → setOptions ρ c = Panic.
Proof.
  intros Hρ Hc. unfold setOptions. rewrite optionPairs_group by done. rewrite Hc.
  vm_eval (groupOf helpContinued ["Options:"] "Options:").
  rewrite (descHeadIndexOf_single ρ _ 14 0) by (done || (vm_compute; reflexivity)).
  reflexivity.
Qed.

(** With the continuation line indented to the column of the descriptions,
    the description is joined as Scenario C expects. *)
Lemma scenario_C_aligned_continuation ρ c :
  range_ok ρ → helpMessage c = helpContinuedAligned → Options c = [] →
  setOptions ρ c
  = Ret (withOptions c [Option.Build "Print usage information" "help" "h"], None).
Proof.
  intros Hρ Hc Ho. unfold setOptions. rewrite optionPairs_group by done. rewrite Hc, Ho.
  vm_eval (groupOf helpContinuedAligned ["Options:"] "Options:").
  unfold cutGroup.
  rewrite (descHeadIndexOf_single ρ _ 14 0) by (done || (vm_compute; reflexivity)).
  match goal with |- context [fitsColumn ?a ?b] => vm_eval (fitsColumn a b) end.
  cbn [mbind outcome_bind].
  match goal with |- context [cutAt 14 <$> ?l] => vm_eval (cutAt 14 <$> l) end.
  generalize (ChainString c). intros cs.
  replace (optionsLoop cs [("-h, --help    ", "Print usage"); ("              ", "information")] [])
    with ([Option.Build "Print usage information" "help" "h"], @None error)
    by (vm_compute; reflexivity).
  reflexivity.
Qed.

(** C10: [splitDescription] is not total.  In the group below the column
    of the descriptions is 15 and the line [-q] has two bytes: the slice
    [line[:15]] is out of range and the call panics. *)
Theorem splitDescription_panics_on_a_short_line :
  descHeadIndexOf inOrder ["-f, --force    Force the removal"; "-q"] = 15
  ∧ String.length "-q" = 2
  ∧ sliceAt 15 "-q" = Panic
  ∧ splitDescription inOrder {[ "Options:" := ["-f, --force    Force the removal"; "-q"] ]}
    = Panic.
Proof. split_and!; vm_compute; reflexivity. Qed.

(** The model of the library functions on small inputs. *)
Example TrimSpace_ex : TrimSpace "  docker rm  X	 " = "docker rm  X".
Proof. reflexivity. Qed.
Example Split_ex :
  SplitSpace "-f, --force" = ["-f,"; "--force"]
  ∧ SplitSpace "" = [""] ∧ SplitSpace "a  b" = ["a"; ""; "b"].
Proof. split_and!; reflexivity. Qed.
Example FindAllString_ex :
  FindAllString upperClass " CONTAINER [CONTAINER...] a_B" = ["CONTAINER"; "CONTAINER"; "_B"].
Proof. reflexivity. Qed.
Example descHeadMatches_ex : descHeadMatches "-f, --force    Force the removal" 0 = [14].
Proof. reflexivity. Qed.
Example scannerLines_ex : scannerLines (unlines ["a"; ""; "b"] +:+ "c") = ["a"; ""; "b"; "c"].
Proof. reflexivity. Qed.


(** * Further properties of the code *)

(** ** More on strings *)

Lemma takeBytes_dropBytes i s : takeBytes i s +:+ dropBytes i s = s.
Proof.
  revert s. induction i as [|i IH]; intros s; [done|].
  destruct s as [|a s]; [done|]. cbn [takeBytes dropBytes].
  by rewrite append_cons, IH.
Qed.

Lemma takeBytes_append (p s : string) : takeBytes (String.length p) (p +:+ s) = p.
Proof.
  induction p as [|a p IH]; [done|]. rewrite append_cons. cbn. by rewrite IH.
Qed.

Lemma lastIn_append_cons cls s a t :
  lastIn cls (s +:+ String a t) = lastIn cls (String a t).
Proof.
  induction s as [|b s IH]; [done|]. rewrite append_cons.
  rewrite lastIn_cons; [done|]. by destruct s.
Qed.

(** [TrimSuffix] with a one-byte suffix: it removes that byte at the end and
    leaves any other string as it is. *)
Lemma TrimSuffix_byte_present s a : TrimSuffix (s +:+ String a "") (String a "") = s.
Proof.
  unfold TrimSuffix, HasSuffix. rewrite length_append. cbn [String.length].
  replace (String.length s + 1 - 1) with (String.length s) by lia.
  replace (1 <=? String.length s + 1) with true by (symmetry; apply Nat.leb_le; lia).
  rewrite dropBytes_append, String.eqb_refl. cbn. apply takeBytes_append.
Qed.

Lemma dropBytes_last s a t :
  dropBytes (String.length s) (s +:+ String a t) = String a t.
Proof. apply dropBytes_append. Qed.

Lemma string_snoc_inv (s : string) : s = "" ∨ ∃ s' a, s = s' +:+ String a "".
Proof.
  induction s as [|b s IH]; [by left|]. right.
  destruct IH as [-> | (s' & a & ->)].
  - by exists "", b.
  - exists (String b s'), a. by rewrite append_cons.
Qed.

Lemma TrimSuffix_byte_absent s a :
  lastIn (Ascii.eqb a) s = false → TrimSuffix s (String a "") = s.
Proof.
  intros Hl. unfold TrimSuffix, HasSuffix.
  destruct (string_snoc_inv s) as [-> | (s' & b & ->)]; [done|].
  rewrite length_append. cbn [String.length].
  replace (String.length s' + 1 - 1) with (String.length s') by lia.
  rewrite dropBytes_append.
  rewrite lastIn_append_cons in Hl. cbn in Hl.
  replace (String b "" =? String a "")%string with false; [by rewrite andb_false_r|].
  symmetry. apply String.eqb_neq. intros [= ->]. by rewrite Ascii.eqb_refl in Hl.
Qed.

(** ** [bufio.Scanner]: the lines of a text *)

Lemma freeOf_cons a b s : freeOf a (String b s) = negb (Ascii.eqb b a) && freeOf a s.
Proof. reflexivity. Qed.

Lemma scanLinesFrom_line line rest cur :
  freeOf newline line = true →
  scanLinesFrom (line +:+ nl +:+ rest) cur
  = if tooLong (cur +:+ line) then []
    else dropCR (cur +:+ line) :: scanLinesFrom rest "".
Proof.
  revert cur. induction line as [|a line IH]; intros cur Hfree.
  - rewrite append_nil_l, append_nil_r. unfold nl. rewrite append_cons, append_nil_l.
    cbn [scanLinesFrom]. by rewrite Ascii.eqb_refl.
  - rewrite freeOf_cons in Hfree. apply andb_true_iff in Hfree as [Ha Hfree].
    apply negb_true_iff in Ha. rewrite append_cons. cbn [scanLinesFrom]. rewrite Ha.
    rewrite IH by done. by rewrite append_snoc.
Qed.

(** Lines the scanner hands over as they are, followed by any text. *)
Lemma scanLinesFrom_plain (lines : list string) (rest : string) :
  forallb plainLine lines = true →
  scanLinesFrom (unlines lines +:+ rest) "" = lines ++ scanLinesFrom rest "".
Proof.
  induction lines as [|line lines IH]; intros Hall; [by rewrite append_nil_l|].
  cbn in Hall. apply andb_true_iff in Hall as [Hl Hall].
  unfold plainLine in Hl. apply andb_true_iff in Hl as [Hl Hlong].
  apply andb_true_iff in Hl as [Hfree Hcr].
  apply negb_true_iff in Hlong, Hcr.
  cbn [unlines fold_right]. rewrite !append_assoc. rewrite scanLinesFrom_line by done.
  rewrite append_nil_l, Hlong. unfold dropCR. rewrite TrimSuffix_byte_absent by done.
  cbn [app]. f_equal. by apply IH.
Qed.

(** X1 (scanner round trip): a text written as lines that each end in a
    newline is read back as those lines, provided no line holds a newline,
    ends in a carriage return or reaches the token limit of the scanner. *)
Theorem scannerLines_unlines (lines : list string) :
  forallb plainLine lines = true → scannerLines (unlines lines) = lines.
Proof.
  intros Hall. unfold scannerLines.
  rewrite <- (append_nil_r (unlines lines)), scanLinesFrom_plain by done.
  cbn [scanLinesFrom]. apply app_nil_r.
Qed.

Lemma scannerLines_unlines_witness :
  forallb plainLine ["Usage:  docker rm CONTAINER"; ""; "Options:"] = true
  ∧ scannerLines (unlines ["Usage:  docker rm CONTAINER"; ""; "Options:"])
    = ["Usage:  docker rm CONTAINER"; ""; "Options:"].
Proof.
  split; [reflexivity|]. apply scannerLines_unlines. reflexivity.
Defined.

Lemma freeOf_append a s t : freeOf a (s +:+ t) = freeOf a s && freeOf a t.
Proof. apply allIn_append. Qed.

Lemma freeOf_takeBytes a n s : freeOf a s = true → freeOf a (takeBytes n s) = true.
Proof.
  revert s. induction n as [|n IH]; intros s Hs; [done|].
  destruct s as [|b s]; [done|]. rewrite freeOf_cons in Hs.
  apply andb_true_iff in Hs as [Hb Hs]. cbn [takeBytes]. rewrite freeOf_cons, Hb. by apply IH.
Qed.

Lemma length_takeBytes n s : String.length (takeBytes n s) ≤ String.length s.
Proof.
  revert s. induction n as [|n IH]; intros s; cbn; [lia|].
  destruct s as [|b s]; cbn; [lia|]. specialize (IH s). lia.
Qed.

Lemma dropCR_keeps a s :
  freeOf a s = true → freeOf a (dropCR s) = true ∧ String.length (dropCR s) ≤ String.length s.
Proof.
  intros Hs. unfold dropCR, TrimSuffix. destruct (HasSuffix _ _); [|done].
  split; [by apply freeOf_takeBytes | apply length_takeBytes].
Qed.

Lemma scanLinesFrom_lines s cur line :
  freeOf newline cur = true →
  line ∈ scanLinesFrom s cur →
  freeOf newline line = true ∧ (N.of_nat (String.length line) < MaxScanTokenSize)%N.
Proof.
  revert cur. induction s as [|a s IH]; intros cur Hcur Hin.
  - cbn in Hin. destruct cur as [|c cur]; [by apply elem_of_nil in Hin|].
    destruct (tooLong (String c cur)) eqn:Hlong; [by apply elem_of_nil in Hin|].
    apply list_elem_of_singleton in Hin as ->.
    destruct (dropCR_keeps newline _ Hcur) as [Hf Hlen]. split; [done|].
    unfold tooLong in Hlong. apply N.leb_gt in Hlong. lia.
  - cbn [scanLinesFrom] in Hin. destruct (Ascii.eqb a newline) eqn:Ha.
    + destruct (tooLong cur) eqn:Hlong; [by apply elem_of_nil in Hin|].
      apply elem_of_cons in Hin as [-> | Hin]; [|by apply (IH "")].
      destruct (dropCR_keeps newline _ Hcur) as [Hf Hlen]. split; [done|].
      unfold tooLong in Hlong. apply N.leb_gt in Hlong. lia.
    + apply (IH _) in Hin; [done|].
      rewrite freeOf_append, Hcur. cbn. by rewrite Ha.
Qed.

(** Whatever the help text, no line handed to the loop of [scanHelpMessage]
    holds a newline, and each is shorter than [bufio.MaxScanTokenSize]. *)
Lemma scannerLines_are_lines (msg line : string) :
  line ∈ scannerLines msg →
  freeOf newline line = true ∧ (N.of_nat (String.length line) < MaxScanTokenSize)%N.
Proof. by apply scanLinesFrom_lines. Qed.


(** ** More on [scanHelpMessage] *)

Lemma isBlank_trimLeftSpace s : isBlank s = true → trimLeftSpace s = "".
Proof.
  induction s as [|a s IH]; [done|]. cbn [isBlank]. intros Hb.
  apply andb_true_iff in Hb as [Ha Hs]. cbn [trimLeftSpace].
  replace (isAsciiSpace a) with true; [by apply IH|].
  symmetry. unfold isRegexpSpace in Ha. unfold isAsciiSpace.
  repeat (apply orb_true_iff in Ha as [Ha | Ha]); rewrite Ha; cbn;
    rewrite ?orb_true_r; reflexivity.
Qed.

Lemma isBlank_TrimSpace s : isBlank s = true → TrimSpace s = "".
Proof. intros Hb. unfold TrimSpace. by rewrite isBlank_trimLeftSpace. Qed.

Lemma isBlank_append s t : isBlank (s +:+ t) = isBlank s && isBlank t.
Proof.
  induction s as [|a s IH]; [done|]. rewrite append_cons. cbn [isBlank].
  by rewrite IH, andb_assoc.
Qed.

Lemma scanStep_not_blank markers st line :
  map_Forall (fun _ g => Forall (fun l => isBlank l = false) g) st.2 →
  map_Forall (fun _ g => Forall (fun l => isBlank l = false) g) (scanStep markers st line).2.
Proof.
  destruct st as [cur linesMap]. cbn [snd]. intros Hm. unfold scanStep.
  assert (Happ : ∀ k x, isBlank x = false →
            map_Forall (fun _ g => Forall (fun l => isBlank l = false) g)
                       (appendAt linesMap k x)).
  { intros k x Hx. unfold appendAt. apply map_Forall_insert_2; [|done].
    apply Forall_app. split; [|by constructor].
    destruct (linesMap !! k) as [g|] eqn:Hk; [exact (Hm k g Hk) | constructor]. }
  destruct (isBlank line) eqn:Hb; [done|].
  destruct (hitMarker markers line) as [m|].
  - destruct (String.eqb (TrimSpace (TrimPrefix line m)) "") eqn:Et; cbn [snd]; [done|].
    apply Happ. apply String.eqb_neq in Et.
    destruct (isBlank (TrimPrefix line m)) eqn:Hbt; [|done].
    by apply isBlank_TrimSpace in Hbt.
  - destruct (String.eqb cur ""); cbn [snd]; [done | by apply Happ].
Qed.

(** X2 (groups of the scanner): every key of the map is one of the markers,
    no group is empty, and no group holds a blank line. *)
Theorem scanHelpMessage_groups (msg : string) (markers : list string)
    (marker : string) (lines : list string) :
  scanHelpMessage msg markers !! marker = Some lines →
  marker ∈ markers ∧ lines ≠ [] ∧ Forall (fun l => isBlank l = false) lines.
Proof.
  intros Hk. split_and!.
  - apply (scanHelpMessage_keys msg). by rewrite Hk.
  - intros ->. by apply (scanHelpMessage_nonempty msg markers marker).
  - revert Hk. unfold scanHelpMessage.
    assert (Hgen : ∀ ls st,
              map_Forall (fun _ g => Forall (fun l => isBlank l = false) g) st.2 →
              map_Forall (fun _ g => Forall (fun l => isBlank l = false) g)
                         (scanFrom markers st ls).2).
    { induction ls as [|l ls IH]; intros st Hst; [done|].
      rewrite scanFrom_cons. apply IH. by apply scanStep_not_blank. }
    apply (Hgen (scannerLines msg) ("", ∅) (map_Forall_empty _)).
Qed.

Lemma scanHelpMessage_groups_witness :
  scanHelpMessage helpNetwork subcommandMarkers !! "Commands:"
  = Some ["connect  Connect a container to a network"; "create   Create a network"]
  ∧ "Commands:" ∈ subcommandMarkers.
Proof.
  assert (H : scanHelpMessage helpNetwork subcommandMarkers !! "Commands:"
              = Some ["connect  Connect a container to a network";
                      "create   Create a network"]) by (vm_compute; reflexivity).
  split; [exact H|]. exact (proj1 (scanHelpMessage_groups _ _ _ _ H)).
Defined.

(** X3 (text on the marker line): what follows a marker on its own line,
    unless it is white space only, opens the group of that marker; the body
    lines after it follow in the group. *)
Theorem marker_line_trailer_opens_group
    (markers : list string) (marker trailer cur : string) (body : list string)
    (linesMap : gmap string (list string)) :
  marker ≠ "" →
  hitMarker markers (marker +:+ trailer) = Some marker →
  TrimSpace trailer ≠ "" →
  forallb (isBodyLine markers) body = true →
  scanFrom markers (cur, linesMap) ((marker +:+ trailer) :: body)
  = (marker, appendAll linesMap marker (trailer :: body)).
Proof.
  intros Hm Hhit Ht Hbody. rewrite scanFrom_cons.
  assert (Hb : isBlank (marker +:+ trailer) = false).
  { rewrite isBlank_append. destruct (isBlank trailer) eqn:Hbt.
    - by apply isBlank_TrimSpace in Hbt.
    - apply andb_false_r. }
  assert (Etrim : TrimPrefix (marker +:+ trailer) marker = trailer).
  { unfold TrimPrefix.
    replace (HasPrefix (marker +:+ trailer) marker) with true
      by (symmetry; apply HasPrefix_append; by exists trailer).
    apply dropBytes_append. }
  unfold scanStep at 1. rewrite Hb, Hhit, Etrim.
  apply String.eqb_neq in Ht. rewrite Ht.
  by rewrite scanFrom_body.
Qed.

Lemma marker_line_trailer_opens_group_witness :
  scanFrom ["Usage:"] ("", ∅)
    (("Usage:" +:+ "  docker rm CONTAINER") :: ["        docker rm IMAGE"])
  = ("Usage:", appendAll ∅ "Usage:" ["  docker rm CONTAINER"; "        docker rm IMAGE"]).
Proof.
  apply (marker_line_trailer_opens_group ["Usage:"] "Usage:" "  docker rm CONTAINER" ""
           ["        docker rm IMAGE"] ∅); (reflexivity || discriminate).
Defined.

(** Lines without any marker in front leave the scanner idle. *)
Lemma scanFrom_no_marker markers linesMap lines :
  Forall (fun line => hitMarker markers line = None) lines →
  scanFrom markers ("", linesMap) lines = ("", linesMap).
Proof.
  induction 1 as [|l ls Hl Hls IH]; [reflexivity|].
  rewrite scanFrom_cons. unfold scanStep at 1. rewrite Hl.
  by destruct (isBlank l).
Qed.

Lemma hitMarker_None markers line :
  hitMarker markers line = None ↔ Forall (fun m => HasPrefix line m = false) markers.
Proof.
  induction markers as [|m ms IH]; cbn.
  - split; [constructor | done].
  - destruct (HasPrefix line m) eqn:Hp.
    + split; [discriminate | intros H; inversion H; congruence].
    + rewrite IH. split; [by constructor | intros H; by inversion H].
Qed.

Lemma hitMarker_sublist markers markers' line :
  markers' ⊆ markers → hitMarker markers line = None → hitMarker markers' line = None.
Proof.
  rewrite !hitMarker_None, !Forall_forall. intros Hsub Hall m Hm. apply Hall. by apply Hsub.
Qed.

Lemma scanHelpMessage_no_marker msg markers :
  Forall (fun line => hitMarker markers line = None) (scannerLines msg) →
  scanHelpMessage msg markers = ∅.
Proof. intros Hall. unfold scanHelpMessage. by rewrite scanFrom_no_marker. Qed.

(** ** More on [splitDescription] *)

Lemma splitGroups_all_fit ρ groups pairsMap :
  Forall (fun g => fitsColumn (descHeadIndexOf ρ g.2) g.2 = true) groups →
  ∃ pairsMap', splitGroups ρ groups pairsMap = Ret pairsMap'.
Proof.
  intros Hall. revert pairsMap. induction Hall as [|[key lines] rest Hg Hrest IH]; intros pairsMap.
  - by eexists.
  - cbn [splitGroups]. cbn [snd] in Hg. rewrite splitLines_fits by done.
    cbn [mbind outcome_bind]. apply IH.
Qed.

(** X4 (bounds of the slices): [splitDescription] returns exactly when no
    line of any group is shorter than the column chosen for its group, and
    panics otherwise. *)
Theorem splitDescription_returns_iff_lines_fit
    (ρ : RangeOrder) (linesMap : gmap string (list string)) :
  range_ok ρ →
  ((∀ key lines, linesMap !! key = Some lines →
                 fitsColumn (descHeadIndexOf ρ lines) lines = true)
   ∧ ∃ pairsMap, splitDescription ρ linesMap = Ret pairsMap)
  ∨ ((∃ key lines, linesMap !! key = Some lines
                   ∧ fitsColumn (descHeadIndexOf ρ lines) lines = false)
     ∧ splitDescription ρ linesMap = Panic).
Proof.
  intros Hρ.
  destruct (decide (Forall (fun g => fitsColumn (descHeadIndexOf ρ g.2) g.2 = true)
                           (rangeMap ρ linesMap))) as [Hall | Hnot].
  - left. split.
    + intros key lines Hk. rewrite Forall_forall in Hall.
      apply (Hall (key, lines)). by apply rangeMap_lookup.
    + by apply splitGroups_all_fit.
  - right. apply not_Forall_Exists in Hnot; [|intros g; apply _].
    apply Exists_exists in Hnot as ([key lines] & Hin & Hfit). cbn [snd] in Hfit.
    apply rangeMap_lookup in Hin; [|done]. apply not_true_is_false in Hfit.
    split; [by exists key, lines|]. by apply (splitDescription_short_line ρ _ key lines).
Qed.

Lemma splitDescription_returns_iff_lines_fit_witness :
  range_ok inOrder
  ∧ splitDescription inOrder {[ "Options:" := ["-h, --help    Print usage"; "  information"] ]}
    = Panic.
Proof.
  split; [exact range_ok_inOrder|].
  destruct (splitDescription_returns_iff_lines_fit inOrder
              {[ "Options:" := ["-h, --help    Print usage"; "  information"] ]}
              range_ok_inOrder) as [[_ [pm E]] | [_ E]]; [|exact E].
  vm_compute in E. discriminate.
Defined.

(** X5 (split round trip): when [splitDescription] returns, the pairs under
    a key are as many as the lines of the group and, name and description
    joined again, give the lines back in their order: no byte of a line is
    lost or added by the cut. *)
Theorem splitDescription_pairs_rejoin
    (ρ : RangeOrder) (linesMap : gmap string (list string))
    (pairsMap : gmap string (list (string * string))) (key : string) :
  range_ok ρ →
  splitDescription ρ linesMap = Ret pairsMap →
  (fun p => p.1 +:+ p.2) <$> default [] (pairsMap !! key) = default [] (linesMap !! key)
  ∧ length (default [] (pairsMap !! key)) = length (default [] (linesMap !! key)).
Proof.
  intros Hρ E. rewrite (splitDescription_lookup ρ _ _ key Hρ E). unfold cutGroup.
  split; [|by rewrite length_fmap].
  generalize (descHeadIndexOf ρ (default [] (linesMap !! key))). intros i.
  induction (default [] (linesMap !! key)) as [|line lines IH]; [done|].
  rewrite !fmap_cons, IH. f_equal. apply takeBytes_dropBytes.
Qed.

Lemma splitDescription_pairs_rejoin_witness :
  range_ok inOrder
  ∧ splitDescription inOrder {[ "Options:" := ["-f, --force    Force the removal"] ]}
    = Ret {[ "Options:" := [("-f, --force    ", "Force the removal")] ]}
  ∧ (fun p => p.1 +:+ p.2)
      <$> default [] (({[ "Options:" := [("-f, --force    ", "Force the removal")] ]}
                        : gmap string (list (string * string))) !! "Options:")
    = default [] (({[ "Options:" := ["-f, --force    Force the removal"] ]}
                     : gmap string (list string)) !! "Options:").
Proof.
  assert (E : splitDescription inOrder {[ "Options:" := ["-f, --force    Force the removal"] ]}
              = Ret {[ "Options:" := [("-f, --force    ", "Force the removal")] ]})
    by (vm_compute; reflexivity).
  split; [exact range_ok_inOrder|]. split; [exact E|].
  exact (proj1 (splitDescription_pairs_rejoin inOrder _ _ "Options:" range_ok_inOrder E)).
Defined.

Lemma get_Some_lt n s a : String.get n s = Some a → n < String.length s.
Proof.
  revert n. induction s as [|b s IH]; intros n; [by destruct n|].
  destruct n as [|n]; cbn; [lia|]. intros Hg. apply IH in Hg. lia.
Qed.

(** The chosen column lies inside some line of the group, or is zero. *)
Lemma descHeadIndexOf_inside ρ lines :
  range_ok ρ →
  descHeadIndexOf ρ lines = 0
  ∨ ∃ line, line ∈ lines ∧ descHeadIndexOf ρ lines < String.length line
            ∧ descHeadIndexOf ρ lines - 1 ∈ descHeadMatches line 0.
Proof.
  intros Hρ. unfold descHeadIndexOf.
  destruct (pickDescHead_spec (descHeadIndices lines) (rangeMap ρ (descHeadIndices lines))
              (descHeadIndices_positive lines) (rangeMap_perm ρ _ Hρ))
    as [[_ E] | (v & pre & post & Hk & _)]; [by left|].
  right. assert (Hs : is_Some (descHeadIndices lines !! pickDescHead
                                 (rangeMap ρ (descHeadIndices lines)))) by by eexists.
  apply descHeadIndices_candidates in Hs as (line & i & Hl & Hi & E).
  exists line. split; [done|]. rewrite E.
  destruct (descHeadMatches_sound _ _ _ Hi) as (_ & a & b & _ & Gb & _).
  rewrite Nat.sub_0_r in Gb. apply get_Some_lt in Gb.
  split; [lia|]. by replace (i + 1 - 1) with i by lia.
Qed.

(** X6 (one line): a group of a single line never panics; the line is cut
    inside itself. *)
Theorem splitDescription_single_line_returns (ρ : RangeOrder) (key line : string) :
  range_ok ρ →
  descHeadIndexOf ρ [line] ≤ String.length line
  ∧ splitDescription ρ {[ key := [line] ]}
    = Ret {[ key := [cutAt (descHeadIndexOf ρ [line]) line] ]}.
Proof.
  intros Hρ.
  assert (Hle : descHeadIndexOf ρ [line] ≤ String.length line).
  { destruct (descHeadIndexOf_inside ρ [line] Hρ) as [-> | (l & Hl & Hlt & _)]; [lia|].
    apply list_elem_of_singleton in Hl as ->. lia. }
  split; [done|].
  rewrite splitDescription_singleton; [done | done |].
  cbn. apply andb_true_iff. split; [by apply Nat.leb_le | done].
Qed.

Lemma splitDescription_single_line_returns_witness :
  range_ok inOrder
  ∧ splitDescription inOrder {[ "Options:" := ["-q"] ]}
    = Ret {[ "Options:" := [cutAt (descHeadIndexOf inOrder ["-q"]) "-q"] ]}.
Proof.
  split; [exact range_ok_inOrder|].
  exact (proj2 (splitDescription_single_line_returns inOrder "Options:" "-q" range_ok_inOrder)).
Defined.

Lemma descHeadIndices_no_candidate lines :
  Forall (fun line => descHeadMatches line 0 = []) lines → descHeadIndices lines = ∅.
Proof.
  intros Hall. apply map_empty. intros k.
  destruct (descHeadIndices lines !! k) as [v|] eqn:Hk; [|done]. exfalso.
  assert (Hs : is_Some (descHeadIndices lines !! k)) by by eexists.
  apply descHeadIndices_candidates in Hs as (line & i & Hl & Hi & _).
  rewrite Forall_forall in Hall. rewrite (Hall _ Hl) in Hi. by apply elem_of_nil in Hi.
Qed.

Lemma cutAt_zero line : cutAt 0 line = ("", line).
Proof. by destruct line. Qed.

(** X7 (no capital, no entry): when no line of the options section has a
    white-space byte followed by an upper-case letter, the column is 0,
    every line is a continuation, and [Forge] fails with the error of
    [setOptions], the node holding no option. *)
Theorem options_without_capital_fail
    (exec : list string → output) (ρ : RangeOrder) (fuel : nat) (cmd : string)
    (chain : list string) (desc msg line : string) (lines : list string) :
  range_ok ρ →
  exec (chain ++ [cmd] ++ ["--help"]) = Output msg →
  groupOf msg ["Options:"] "Options:" = line :: lines →
  Forall (fun l => descHeadMatches l 0 = []) (line :: lines) →
  Forge exec ρ (S fuel) cmd chain desc
  = Ret (Some (mkCommand (chain ++ [cmd]) desc
                 (Arguments (setArgument ρ (newCommand (chain ++ [cmd]) desc msg)))
                 [] [] msg),
         Some (OptionsError (Join (chain ++ [cmd]) " "))).
Proof.
  intros Hρ He Hg Hall. rewrite Forge_unfold, He. cbn zeta.
  rewrite optionPairs_group by done. cbn [helpMessage newCommand]. rewrite Hg.
  unfold cutGroup.
  rewrite (descHeadIndexOf_none ρ (line :: lines) Hρ (descHeadIndices_no_candidate _ Hall)).
  replace (fitsColumn 0 (line :: lines)) with true
    by (symmetry; apply fitsColumn_Forall; apply Forall_forall; intros; lia).
  cbn [mbind outcome_bind]. rewrite fmap_cons, cutAt_zero.
  by rewrite optionsLoop_continuation_first.
Qed.

Lemma options_without_capital_fail_witness :
  range_ok inOrder
  ∧ groupOf helpLowerCase ["Options:"] "Options:"
    = ["  -a, --all    show all"; "  -q           quiet"]
  ∧ Forge execLowerCase inOrder 1 "docker" [] ""
    = Ret (Some (mkCommand ([] ++ ["docker"]) ""
                   (Arguments (setArgument inOrder (newCommand ([] ++ ["docker"]) "" helpLowerCase)))
                   [] [] helpLowerCase),
           Some (OptionsError (Join ([] ++ ["docker"]) " "))).
Proof.
  assert (Hg : groupOf helpLowerCase ["Options:"] "Options:"
               = ["  -a, --all    show all"; "  -q           quiet"])
    by (vm_compute; reflexivity).
  split; [exact range_ok_inOrder|]. split; [exact Hg|].
  apply (options_without_capital_fail execLowerCase inOrder 0 "docker" [] "" helpLowerCase
           _ _ range_ok_inOrder eq_refl Hg).
  repeat constructor.
Defined.

(** ** More on [setOptions] *)

Lemma updateLast_snoc {A} (f : A → A) (l : list A) (x : A) :
  updateLast f (l ++ [x]) = l ++ [f x].
Proof.
  induction l as [|y l IH]; [done|]. cbn [app].
  destruct (l ++ [x]) as [|z l'] eqn:E; [by destruct l|].
  change (updateLast f (y :: z :: l')) with (y :: updateLast f (z :: l')).
  by rewrite IH.
Qed.

Lemma updateLast_length {A} (f : A → A) (l : list A) : length (updateLast f l) = length l.
Proof.
  induction l as [|y [|z l] IH]; [done | done |].
  change (updateLast f (y :: z :: l)) with (y :: updateLast f (z :: l)).
  cbn [length]. by rewrite IH.
Qed.

(** Once the list holds an option the loop cannot fail. *)
Lemma optionsLoop_nonempty chainString pairs options :
  options ≠ [] →
  ∃ options', optionsLoop chainString pairs options = (options', None)
              ∧ length options' = length options + length (entriesOf pairs).
Proof.
  revert options. induction pairs as [|p rest IH]; intros options Hne.
  - exists options. split; [done|]. cbn. lia.
  - cbn [optionsLoop]. destruct (parseFlags (TrimSpace p.1)) as [long short].
    destruct (String.eqb (TrimSpace p.1) "") eqn:Ee.
    + apply String.eqb_eq in Ee. rewrite entriesOf_cons_continuation by done.
      destruct options as [|o os]; [done|].
      destruct (IH (updateLast (appendOptionDesc (TrimSpace p.2)) (o :: os)))
        as (options' & E & Hlen).
      { intros Hnil. apply (f_equal length) in Hnil. by rewrite updateLast_length in Hnil. }
      exists options'. split; [done|]. by rewrite Hlen, updateLast_length.
    + apply String.eqb_neq in Ee. rewrite entriesOf_cons_entry by done.
      destruct (IH (options ++ [Option.Build (TrimSpace p.2) long short]))
        as (options' & E & Hlen); [by destruct options|].
      exists options'. split; [done|]. rewrite Hlen, length_app. cbn. lia.
Qed.

(** X8 (when [setOptions] fails): the loop over the pairs fails exactly when
    its first pair is a continuation line, and then builds nothing; in every
    other case it ends without error with one option for each pair that
    has a name. *)
Theorem optionsLoop_fails_iff_first_is_continuation
    (chainString : string) (pairs : list (string * string)) :
  ((∃ p rest, pairs = p :: rest ∧ TrimSpace p.1 = "")
   ∧ optionsLoop chainString pairs [] = ([], Some (OptionsError chainString)))
  ∨ (¬ (∃ p rest, pairs = p :: rest ∧ TrimSpace p.1 = "")
     ∧ ∃ options, optionsLoop chainString pairs [] = (options, None)
                  ∧ length options = length (entriesOf pairs)).
Proof.
  destruct pairs as [|p rest].
  - right. split; [by intros (? & ? & ? & _)|]. by exists [].
  - destruct (decide (TrimSpace p.1 = "")) as [Ee | Ee].
    + left. split; [by exists p, rest|]. by apply optionsLoop_continuation_first.
    + right. split; [intros (? & ? & [= <- <-] & ?); done|].
      cbn [optionsLoop]. destruct (parseFlags (TrimSpace p.1)) as [long short].
      apply String.eqb_neq in Ee as Ee'. rewrite Ee'. rewrite entriesOf_cons_entry by done.
      destruct (optionsLoop_nonempty chainString rest
                  ([] ++ [Option.Build (TrimSpace p.2) long short]))
        as (options & E & Hlen); [done|].
      exists options. split; [done|]. rewrite Hlen. cbn. lia.
Qed.

Lemma join_accumulate (desc : string) (more : list string) :
  foldl (fun acc d => acc +:+ " " +:+ d) desc more = Join (desc :: more) " ".
Proof.
  revert desc. induction more as [|d more IH]; intros desc; [done|].
  cbn [foldl]. rewrite IH. unfold Join. cbn [String.concat].
  destruct more as [|d' more]; by rewrite ?append_assoc.
Qed.

Lemma optionsLoop_continuations chainString conts rest options o :
  Forall (fun p => TrimSpace p.1 = "") conts →
  optionsLoop chainString (conts ++ rest) (options ++ [o])
  = optionsLoop chainString rest
      (options ++ [Option.Build
                     (foldl (fun acc d => acc +:+ " " +:+ d) (Option.Desc o)
                            ((fun p => TrimSpace p.2) <$> conts))
                     (Option.Long o) (Option.Short o)]).
Proof.
  intros Hall. revert o. induction Hall as [|p conts Hp Hconts IH]; intros o.
  - by destruct o.
  - cbn [app optionsLoop]. rewrite Hp. destruct (parseFlags "") as [long short].
    cbn [String.eqb]. destruct (options ++ [o]) as [|x l] eqn:E; [by destruct options|].
    rewrite <- E, updateLast_snoc. rewrite IH. reflexivity.
Qed.

(** X9 (continuation lines): an entry followed by continuation lines gives
    one option, whose names are read off the entry and whose description is
    the description of the entry and those of the continuation lines, in
    order, joined by single spaces; the loop goes on with the pairs after
    them. *)
Theorem optionsLoop_joins_continuations
    (chainString : string) (entry : string * string)
    (conts rest : list (string * string)) (options : list Option.t) :
  TrimSpace entry.1 ≠ "" →
  Forall (fun p => TrimSpace p.1 = "") conts →
  optionsLoop chainString (entry :: conts ++ rest) options
  = optionsLoop chainString rest
      (options ++ [Option.Build (joinedDesc (TrimSpace entry.2) conts)
                     (optionNames entry).1 (optionNames entry).2]).
Proof.
  intros He Hall. cbn [optionsLoop]. unfold optionNames.
  destruct (parseFlags (TrimSpace entry.1)) as [long short].
  apply String.eqb_neq in He. rewrite He.
  rewrite optionsLoop_continuations by done. cbn [Option.Desc Option.Long Option.Short fst snd].
  by rewrite join_accumulate.
Qed.

Lemma optionsLoop_joins_continuations_witness :
  optionsLoop "docker"
    (("-h, --help    ", "Print usage")
       :: [("              ", "information"); ("              ", "and exit")] ++ []) []
  = optionsLoop "docker" []
      ([] ++ [Option.Build
                (joinedDesc (TrimSpace "Print usage")
                   [("              ", "information"); ("              ", "and exit")])
                (optionNames ("-h, --help    ", "Print usage")).1
                (optionNames ("-h, --help    ", "Print usage")).2]).
Proof.
  apply (optionsLoop_joins_continuations "docker" ("-h, --help    ", "Print usage")).
  - vm_compute. discriminate.
  - repeat constructor.
Defined.

(** ** [parseFlags]: the names of an option *)

Lemma splitOn_free sep s cur :
  freeOf sep s = true → splitOn sep s cur = [cur +:+ s].
Proof.
  revert cur. induction s as [|a s IH]; intros cur Hs.
  - by rewrite append_nil_r.
  - rewrite freeOf_cons in Hs. apply andb_true_iff in Hs as [Ha Hs].
    apply negb_true_iff in Ha. cbn [splitOn]. rewrite Ha, IH by done.
    by rewrite append_snoc.
Qed.

Lemma splitOn_first sep s t cur :
  freeOf sep s = true →
  splitOn sep (s +:+ String sep t) cur = (cur +:+ s) :: splitOn sep t "".
Proof.
  revert cur. induction s as [|a s IH]; intros cur Hs.
  - rewrite append_nil_l, append_nil_r. cbn [splitOn]. by rewrite Ascii.eqb_refl.
  - rewrite freeOf_cons in Hs. apply andb_true_iff in Hs as [Ha Hs].
    apply negb_true_iff in Ha. rewrite append_cons. cbn [splitOn]. rewrite Ha, IH by done.
    by rewrite append_snoc.
Qed.

Lemma HasPrefix_cons a s b p :
  HasPrefix (String a s) (String b p) = Ascii.eqb b a && HasPrefix s p.
Proof.
  unfold HasPrefix. cbn [String.prefix]. destruct (ascii_dec b a) as [->|Hne].
  - by rewrite Ascii.eqb_refl.
  - apply Ascii.eqb_neq in Hne. by rewrite Hne.
Qed.

Lemma HasPrefix_nil s : HasPrefix s "" = true.
Proof. by destruct s. Qed.

(** X10 (the usual name field): a name field of the form [-s, --long], where
    [s] and [long] hold no space, [s] does not begin with a dash and [long]
    does not end in a comma, gives the short name [s] and the long name
    [long]. *)
Theorem parseFlags_short_and_long (s long : string) :
  freeOf " " s = true → freeOf " " long = true →
  firstIn (Ascii.eqb "-") s = false →
  lastIn (Ascii.eqb ",") long = false →
  parseFlags ("-" +:+ s +:+ ", --" +:+ long) = (long, s).
Proof.
  intros Hs Hl Hdash Hcomma. unfold parseFlags, SplitSpace.
  replace ("-" +:+ s +:+ ", --" +:+ long)
    with (("-" +:+ s +:+ ",") +:+ String " " ("--" +:+ long))
    by (by rewrite !append_assoc).
  rewrite splitOn_first.
  2:{ rewrite !freeOf_append, Hs. reflexivity. }
  rewrite splitOn_free by (by rewrite freeOf_append, Hl).
  rewrite !append_nil_l. cbn [foldl]. unfold flagStep at 2.
  replace (TrimSuffix ("-" +:+ s +:+ ",") ",") with ("-" +:+ s)
    by (symmetry; rewrite <- append_assoc; apply TrimSuffix_byte_present).
  assert (Hp2 : HasPrefix ("-" +:+ s) "--" = false).
  { rewrite append_cons, append_nil_l, HasPrefix_cons. cbn [Ascii.eqb Bool.eqb andb].
    destruct s as [|a s]; [done|]. rewrite HasPrefix_cons. unfold firstIn in Hdash.
    by rewrite Hdash. }
  rewrite Hp2.
  assert (Hp1 : HasPrefix ("-" +:+ s) "-" = true).
  { rewrite append_cons, append_nil_l, HasPrefix_cons, HasPrefix_nil. reflexivity. }
  rewrite Hp1. cbn [fst snd]. unfold flagStep.
  assert (Hlast : lastIn (Ascii.eqb ",") ("--" +:+ long) = false).
  { destruct long as [|a long]; [reflexivity|].
    rewrite lastIn_append_cons. exact Hcomma. }
  rewrite (TrimSuffix_byte_absent _ _ Hlast).
  assert (Hp3 : HasPrefix ("--" +:+ long) "--" = true)
    by (apply HasPrefix_append; by exists long).
  rewrite Hp3. cbn [fst snd]. unfold TrimPrefix. rewrite Hp1, Hp3.
  by rewrite (dropBytes_append "--" long), (dropBytes_append "-" s).
Qed.

Lemma parseFlags_short_and_long_witness :
  parseFlags ("-" +:+ "f" +:+ ", --" +:+ "force") = ("force", "f").
Proof. apply parseFlags_short_and_long; reflexivity. Defined.

(** ** The tree [Forge] returns *)

Lemma treeAll_unfold P c : treeAll P c ↔ P c ∧ Forall (treeAll P) (Subcommands c).
Proof.
  destruct c as [chain desc number options subs msg]. cbn [treeAll Subcommands].
  assert (Hall : ∀ l, (fix all (l : list Command) : Prop :=
                         match l with
                         | [] => True
                         | sc :: rest => treeAll P sc ∧ all rest
                         end) l ↔ Forall (treeAll P) l).
  { induction l as [|sc l IH]; [by split; [constructor|]|].
    rewrite Forall_cons, IH. reflexivity. }
  by rewrite Hall.
Qed.

(** Induction over a tree of commands. *)
Lemma Command_tree_ind (P : Command → Prop) :
  (∀ c, Forall P (Subcommands c) → P c) → ∀ c, P c.
Proof.
  intros Hstep.
  refine (fix IH (c : Command) : P c := _).
  destruct c as [chain desc number options subs msg].
  apply Hstep. cbn [Subcommands].
  induction subs as [|sc subs IHsubs]; constructor; [apply IH | apply IHsubs].
Qed.

Lemma treeAll_impl (P Q : Command → Prop) c :
  (∀ c, P c → Q c) → treeAll P c → treeAll Q c.
Proof.
  intros HPQ. induction c as [c IH] using Command_tree_ind.
  rewrite !treeAll_unfold. intros [Hc Hsubs]. split; [by apply HPQ|].
  rewrite Forall_forall in IH, Hsubs. apply Forall_forall. intros sc Hsc.
  apply IH; [done|]. by apply Hsubs.
Qed.

Lemma Forall_updateLast {A} (Q : A → Prop) (f : A → A) (l : list A) :
  (∀ x, Q x → Q (f x)) → Forall Q l → Forall Q (updateLast f l).
Proof.
  intros Hf. induction l as [|x [|y l] IH]; intros Hall; [done | |].
  - inversion Hall; subst. constructor; [by apply Hf | done].
  - change (updateLast f (x :: y :: l)) with (x :: updateLast f (y :: l)).
    inversion Hall; subst. constructor; [done | by apply IH].
Qed.

(** What holds of every node [forge] returns, and is kept when a
    description is extended, holds of every subcommand the loop attaches,
    also when the loop ends with an error. *)
Lemma subcommandsLoop_Forall (Q : Command → Prop) forge arg chainString pairs subcommands r :
  (∀ cmd desc sc oe, forge cmd arg desc = Ret (Some sc, oe) → Q sc) →
  (∀ sc desc, Q sc → Q (appendCommandDesc desc sc)) →
  Forall Q subcommands →
  subcommandsLoop forge arg chainString pairs subcommands = Ret r →
  Forall Q r.1.
Proof.
  intros Hforge Hdesc. revert subcommands.
  induction pairs as [|p rest IH]; intros subcommands Hall E.
  - by inversion E.
  - cbn [subcommandsLoop] in E. destruct (String.eqb (TrimSpace p.1) "").
    + destruct subcommands as [|s ss]; [by inversion E|].
      apply IH in E; [done|]. apply Forall_updateLast; [|done]. intros x. apply Hdesc.
    + destruct (forge (TrimSpace p.1) arg (TrimSpace p.2)) as [[[sc|] [err|]]| |] eqn:Er;
        cbn [mbind outcome_bind] in E; try discriminate; try (by inversion E).
      apply IH in E; [done|]. apply Forall_app. split; [done|].
      constructor; [|done]. by eapply Hforge.
Qed.

Lemma lor_in_range (a b : Z) :
  (0 ≤ a < 2 ^ 11 → 0 ≤ b < 2 ^ 11 → 0 ≤ Z.lor a b < 2 ^ 11)%Z.
Proof.
  intros Ha Hb. assert (Hnn : (0 ≤ Z.lor a b)%Z) by (apply Z.lor_nonneg; lia).
  split; [done|].
  destruct (decide (Z.lor a b = 0%Z)) as [-> | Hne]; [lia|].
  apply Z.log2_lt_pow2; [lia|]. rewrite Z.log2_lor by lia.
  apply Z.max_lub_lt.
  - destruct (decide (a = 0%Z)) as [-> | ?]; [cbn; lia | apply Z.log2_lt_pow2; lia].
  - destruct (decide (b = 0%Z)) as [-> | ?]; [cbn; lia | apply Z.log2_lt_pow2; lia].
Qed.

Lemma orFlag_in_range cls table number m :
  tableOk cls table →
  Forall (fun e => (0 ≤ e.2 < 2 ^ 11)%Z) table →
  (0 ≤ number < 2 ^ 11)%Z → (0 ≤ orFlag table number m < 2 ^ 11)%Z.
Proof.
  intros [Hnd _] Hall Hn. unfold orFlag.
  destruct (flagOf table m) as [flag|] eqn:Hf; [|done].
  apply flagOf_elem in Hf; [|done]. rewrite Forall_forall in Hall.
  apply lor_in_range; [done|]. exact (Hall _ Hf).
Qed.

Lemma classifyTrimmed_in_range number trimmed :
  (0 ≤ number < 2 ^ 11)%Z → (0 ≤ classifyTrimmed number trimmed < 2 ^ 11)%Z.
Proof.
  intros Hn. unfold classifyTrimmed.
  rewrite (foldl_pointwise lowerCase (orFlag lowerKeywords)) by apply lowerCase_table.
  rewrite (foldl_pointwise upperCase (orFlag upperKeywords)) by apply upperCase_table.
  assert (Hfold : ∀ cls table ms n, tableOk cls table →
            Forall (fun e => (0 ≤ e.2 < 2 ^ 11)%Z) table →
            (0 ≤ n < 2 ^ 11)%Z → (0 ≤ foldl (orFlag table) n ms < 2 ^ 11)%Z).
  { intros cls table ms. induction ms as [|m ms IH]; intros n Hok Hall Hr; [done|].
    cbn [foldl]. apply IH; [done | done |]. by apply (orFlag_in_range cls). }
  apply (Hfold lowerClass); [apply lowerKeywords_ok | |].
  - repeat constructor; vm_compute; congruence.
  - apply (Hfold upperClass); [apply upperKeywords_ok | | done].
    repeat constructor; vm_compute; congruence.
Qed.

Lemma classifyLines_in_range chainString lines number number' :
  (0 ≤ number < 2 ^ 11)%Z →
  classifyLines chainString lines number = Some number' →
  (0 ≤ number' < 2 ^ 11)%Z.
Proof.
  revert number. induction lines as [|line lines IH]; intros number Hn E.
  - by inversion E; subst.
  - cbn [classifyLines] in E. destruct (String.eqb _ _); [discriminate|].
    apply IH in E; [done|]. by apply classifyTrimmed_in_range.
Qed.

(** [setArgument] sets none but the eleven flag bits: on a node whose mask
    is in range (as the zero mask of a new node is) the mask stays between
    0 and 2^11 - 1. *)
Lemma setArgument_mask_in_range (ρ : RangeOrder) (c : Command) :
  maskInRange c → maskInRange (setArgument ρ c).
Proof.
  unfold maskInRange, setArgument. intros Hc.
  destruct (classifyLines _ _ _) as [number|] eqn:E; [|done].
  cbn [withArguments Arguments]. eapply classifyLines_in_range; [|exact E]. lia.
Qed.


(** The three facts that hold of every node of a returned tree. *)
Lemma Forge_tree exec ρ fuel cmd chain desc node oe :
  Forge exec ρ fuel cmd chain desc = Ret (Some node, oe) →
  treeAll (fun c => childrenExtendChain c ∧ helpIsOutput exec c ∧ maskInRange c) node.
Proof.
  revert cmd chain desc node oe. induction fuel as [|fuel IH]; intros cmd chain desc node oe E;
    [discriminate|].
  pose proof (Forge_Chain _ _ _ _ _ _ _ _ E) as Hchain.
  rewrite Forge_unfold in E.
  destruct (exec (chain ++ [cmd] ++ ["--help"])) as [msg | detail] eqn:He; [|discriminate].
  cbn zeta in E.
  assert (Hmask : maskInRange (setArgument ρ (newCommand (chain ++ [cmd]) desc msg))).
  { apply setArgument_mask_in_range. unfold maskInRange. cbn. lia. }
  assert (Hhelp : ∀ options subs,
            helpIsOutput exec (mkCommand (chain ++ [cmd]) desc
              (Arguments (setArgument ρ (newCommand (chain ++ [cmd]) desc msg)))
              options subs msg)).
  { intros. unfold helpIsOutput. cbn [Chain helpMessage]. by rewrite <- app_assoc. }
  destruct (optionPairs ρ _) as [pairs| |]; try discriminate. cbn [mbind outcome_bind] in E.
  destruct (optionsLoop _ pairs []) as [options [err|]].
  - inversion E; subst node oe. apply treeAll_unfold. cbn [Subcommands].
    split; [|constructor]. split_and!; [constructor | apply Hhelp | exact Hmask].
  - destruct (subcommandPairs ρ _) as [spairs| |]; try discriminate.
    cbn [mbind outcome_bind] in E.
    destruct (subcommandsLoop _ _ _ spairs []) as [[subs oe']| |] eqn:El; try discriminate.
    cbn [mbind outcome_bind fst snd] in E. inversion E; subst node oe.
    set (Q := fun sc => (∃ name, Chain sc = (chain ++ [cmd]) ++ [name])
                 ∧ treeAll (fun c => childrenExtendChain c ∧ helpIsOutput exec c
                                     ∧ maskInRange c) sc).
    assert (Hloop : Forall Q (subs, oe').1).
    { eapply (subcommandsLoop_Forall Q); [ | | | exact El].
      - intros cmd' desc' sc oe'' Hf. split; [|by apply IH in Hf].
        exists cmd'. by apply Forge_Chain in Hf.
      - intros sc d [Hn Ht]. split; [exact Hn|].
        rewrite treeAll_unfold in Ht |- *. destruct Ht as [(H1 & H2 & H3) Hs].
        split; [|exact Hs]. split_and!; [exact H1 | exact H2 | exact H3].
      - constructor. }
    cbn [fst] in Hloop. apply treeAll_unfold. cbn [Subcommands]. split.
    + split_and!; [|apply Hhelp | exact Hmask].
      unfold childrenExtendChain. cbn [Chain Subcommands].
      eapply Forall_impl; [exact Hloop|]. by intros sc [Hn _].
    + eapply Forall_impl; [exact Hloop|]. by intros sc [_ Ht].
Qed.

(** X11 (chains of the tree): in the tree [Forge] returns, the chain of the
    root is the chain given and the name, and at every node the chain of
    each subcommand is the chain of the node and one more token. *)
Theorem Forge_tree_chains
    (exec : list string → output) (ρ : RangeOrder) (fuel : nat) (cmd : string)
    (chain : list string) (desc : string) (node : Command) (oe : option error) :
  Forge exec ρ fuel cmd chain desc = Ret (Some node, oe) →
  Chain node = chain ++ [cmd] ∧ treeAll childrenExtendChain node.
Proof.
  intros E. split; [by apply Forge_Chain in E|].
  apply Forge_tree in E. eapply treeAll_impl; [|exact E]. by intros c (H & _).
Qed.

(** X12 (help texts of the tree): every node of the tree [Forge] returns
    keeps the text the process printed for the chain of that node followed
    by [--help]. *)
Theorem Forge_tree_help
    (exec : list string → output) (ρ : RangeOrder) (fuel : nat) (cmd : string)
    (chain : list string) (desc : string) (node : Command) (oe : option error) :
  Forge exec ρ fuel cmd chain desc = Ret (Some node, oe) →
  treeAll (helpIsOutput exec) node.
Proof.
  intros E. apply Forge_tree in E. eapply treeAll_impl; [|exact E]. by intros c (_ & H & _).
Qed.

(** X13 (masks of the tree): the argument mask of every node of the tree
    [Forge] returns lies between 0 and 2^11 - 1. *)
Theorem Forge_tree_masks
    (exec : list string → output) (ρ : RangeOrder) (fuel : nat) (cmd : string)
    (chain : list string) (desc : string) (node : Command) (oe : option error) :
  Forge exec ρ fuel cmd chain desc = Ret (Some node, oe) →
  treeAll maskInRange node.
Proof.
  intros E. apply Forge_tree in E. eapply treeAll_impl; [|exact E]. by intros c (_ & _ & H).
Qed.

Lemma Forge_tree_chains_witness :
  Forge execNetwork inOrder 2 "network" ["docker"] ""
  = Ret (Some (mkCommand ["docker"; "network"] "" 0 []
                 [ mkCommand ["docker"; "network"; "connect"] "Connect a container to a network"
                     (Z.lor ArgumentNumberDockerNetwork ArgumentNumberDockerContainer)
                     [] [] helpConnect;
                   mkCommand ["docker"; "network"; "create"] "Create a network"
                     ArgumentNumberDockerNetwork [] [] helpCreate ]
                 helpNetwork), None)
  ∧ ∃ node, Chain node = ["docker"] ++ ["network"] ∧ treeAll childrenExtendChain node.
Proof.
  assert (H : Forge execNetwork inOrder 2 "network" ["docker"] ""
    = Ret (Some (mkCommand ["docker"; "network"] "" 0 []
                 [ mkCommand ["docker"; "network"; "connect"] "Connect a container to a network"
                     (Z.lor ArgumentNumberDockerNetwork ArgumentNumberDockerContainer)
                     [] [] helpConnect;
                   mkCommand ["docker"; "network"; "create"] "Create a network"
                     ArgumentNumberDockerNetwork [] [] helpCreate ]
                 helpNetwork), None)) by (vm_compute; reflexivity).
  split; [exact H|]. eexists. exact (Forge_tree_chains _ _ _ _ _ _ _ _ H).
Defined.

Lemma Forge_tree_help_witness :
  Forge execRm inOrder 1 "rm" ["docker"] ""
  = Ret (Some (mkCommand ["docker"; "rm"] "" ArgumentNumberDockerContainer
                 [Option.Build "Force the removal" "force" "f"] [] helpRm), None)
  ∧ treeAll (helpIsOutput execRm)
      (mkCommand ["docker"; "rm"] "" ArgumentNumberDockerContainer
         [Option.Build "Force the removal" "force" "f"] [] helpRm).
Proof.
  assert (H : Forge execRm inOrder 1 "rm" ["docker"] ""
              = Ret (Some (mkCommand ["docker"; "rm"] "" ArgumentNumberDockerContainer
                             [Option.Build "Force the removal" "force" "f"] [] helpRm), None))
    by (vm_compute; reflexivity).
  split; [exact H|]. exact (Forge_tree_help _ _ _ _ _ _ _ _ H).
Defined.

Lemma Forge_tree_masks_witness :
  Forge execRm inOrder 1 "rm" ["docker"] ""
  = Ret (Some (mkCommand ["docker"; "rm"] "" ArgumentNumberDockerContainer
                 [Option.Build "Force the removal" "force" "f"] [] helpRm), None)
  ∧ treeAll maskInRange
      (mkCommand ["docker"; "rm"] "" ArgumentNumberDockerContainer
         [Option.Build "Force the removal" "force" "f"] [] helpRm).
Proof.
  assert (H : Forge execRm inOrder 1 "rm" ["docker"] ""
              = Ret (Some (mkCommand ["docker"; "rm"] "" ArgumentNumberDockerContainer
                             [Option.Build "Force the removal" "force" "f"] [] helpRm), None))
    by (vm_compute; reflexivity).
  split; [exact H|]. exact (Forge_tree_masks _ _ _ _ _ _ _ _ H).
Defined.

(** ** Errors, and what [Forge] asks of the process *)

Lemma subcommandsLoop_error_source forge arg chainString pairs subcommands subcommands' err :
  subcommandsLoop forge arg chainString pairs subcommands = Ret (subcommands', Some err) →
  err = SubcommandsError chainString
  ∨ ∃ cmd desc oc, forge cmd arg desc = Ret (oc, Some err).
Proof.
  revert subcommands. induction pairs as [|p rest IH]; intros subcommands E; [discriminate|].
  cbn [subcommandsLoop] in E. destruct (String.eqb (TrimSpace p.1) "").
  - destruct subcommands as [|s ss]; [inversion E; by left | by apply IH in E].
  - destruct (forge (TrimSpace p.1) arg (TrimSpace p.2)) as [[[sc|] [e|]]| |] eqn:Er;
      cbn [mbind outcome_bind] in E; try discriminate.
    + inversion E; subst. right. by eexists _, _, _.
    + by apply IH in E.
    + inversion E; subst. right. by eexists _, _, _.
Qed.

(** X14 (where an error comes from): an error [Forge] returns names a node at
    or below the one being built: it is the failure of the process for the
    chain of such a node, or the continuation error of [setOptions] or of
    [setSubcommands] for such a node; a child's error reaches the caller
    unchanged. *)
Theorem Forge_error_source
    (exec : list string → output) (ρ : RangeOrder) (fuel : nat) (cmd : string)
    (chain : list string) (desc : string) (oc : option Command) (err : error) :
  Forge exec ρ fuel cmd chain desc = Ret (oc, Some err) →
  ∃ below : list string,
    (∃ detail, err = ExecError detail
               ∧ exec ((chain ++ [cmd] ++ below) ++ ["--help"]) = Failed detail)
    ∨ err = OptionsError (Join (chain ++ [cmd] ++ below) " ")
    ∨ err = SubcommandsError (Join (chain ++ [cmd] ++ below) " ").
Proof.
  revert cmd chain desc oc err.
  induction fuel as [|fuel IH]; intros cmd chain desc oc err E; [discriminate|].
  rewrite Forge_unfold in E.
  destruct (exec (chain ++ [cmd] ++ ["--help"])) as [msg | detail] eqn:He.
  - cbn zeta in E.
    destruct (optionPairs ρ _) as [pairs| |]; try discriminate. cbn [mbind outcome_bind] in E.
    destruct (optionsLoop _ pairs []) as [options [e|]] eqn:Eo.
    + inversion E; subst. apply optionsLoop_error in Eo as [-> _].
      exists []. right. left. by rewrite app_nil_r.
    + destruct (subcommandPairs ρ _) as [spairs| |]; try discriminate.
      cbn [mbind outcome_bind] in E.
      destruct (subcommandsLoop _ _ _ spairs []) as [[subs oe']| |] eqn:El; try discriminate.
      cbn [mbind outcome_bind fst snd] in E. inversion E; subst oc oe'.
      apply subcommandsLoop_error_source in El as [-> | (cmd' & desc' & oc' & Ef)].
      * exists []. right. right. by rewrite app_nil_r.
      * apply IH in Ef as (below & Hcase). exists (cmd' :: below).
        replace (chain ++ [cmd] ++ cmd' :: below) with ((chain ++ [cmd]) ++ [cmd'] ++ below)
          by (by rewrite <- !app_assoc).
        exact Hcase.
  - inversion E; subst. exists []. left. exists detail. split; [done|].
    by rewrite app_nil_r, <- app_assoc.
Qed.

Lemma Forge_error_source_witness :
  Forge execContinuationFirst inOrder 1 "docker" [] ""
  = Ret (Some (mkCommand ["docker"] "" 0 [] [] helpContinuationFirst),
         Some (OptionsError "docker"))
  ∧ ∃ below : list string,
      (∃ detail, OptionsError "docker" = ExecError detail
                 ∧ execContinuationFirst (([] ++ ["docker"] ++ below) ++ ["--help"])
                   = Failed detail)
      ∨ OptionsError "docker" = OptionsError (Join ([] ++ ["docker"] ++ below) " ")
      ∨ OptionsError "docker" = SubcommandsError (Join ([] ++ ["docker"] ++ below) " ").
Proof.
  assert (H : Forge execContinuationFirst inOrder 1 "docker" [] ""
              = Ret (Some (mkCommand ["docker"] "" 0 [] [] helpContinuationFirst),
                     Some (OptionsError "docker"))) by (vm_compute; reflexivity).
  split; [exact H|]. exact (Forge_error_source _ _ _ _ _ _ _ _ H).
Defined.

Lemma subcommandsLoop_same_forge
    (forge forge' : string → list string → string → outcome forged)
    arg chainString pairs subcommands :
  (∀ cmd desc, forge cmd arg desc = forge' cmd arg desc) →
  subcommandsLoop forge arg chainString pairs subcommands
  = subcommandsLoop forge' arg chainString pairs subcommands.
Proof.
  intros Hsame. revert subcommands. induction pairs as [|p rest IH]; intros subcommands; [done|].
  cbn [subcommandsLoop]. destruct (String.eqb (TrimSpace p.1) "").
  - destruct subcommands; [done | apply IH].
  - rewrite Hsame. destruct (forge' _ _ _) as [[[sc|] [e|]]| |]; cbn [mbind outcome_bind];
      try done.
Qed.

(** X15 (what the process is asked): [Forge] runs the process for none but
    the chain of the node it builds and the chains below it: two processes
    that print the same for every argument vector that begins with that
    chain give the same result. *)
Theorem Forge_asks_only_below_its_chain
    (exec exec' : list string → output) (ρ : RangeOrder) (fuel : nat) (cmd : string)
    (chain : list string) (desc : string) :
  (∀ rest, exec (chain ++ [cmd] ++ rest) = exec' (chain ++ [cmd] ++ rest)) →
  Forge exec ρ fuel cmd chain desc = Forge exec' ρ fuel cmd chain desc.
Proof.
  revert cmd chain desc. induction fuel as [|fuel IH]; intros cmd chain desc Hsame; [done|].
  rewrite !Forge_unfold. rewrite <- (Hsame ["--help"]).
  destruct (exec (chain ++ [cmd] ++ ["--help"])) as [msg | detail]; [|done]. cbn zeta.
  destruct (optionPairs ρ _) as [pairs| |]; [|done..]. cbn [mbind outcome_bind].
  destruct (optionsLoop _ pairs []) as [options [e|]]; [done|].
  destruct (subcommandPairs ρ _) as [spairs| |]; [|done..]. cbn [mbind outcome_bind].
  rewrite (subcommandsLoop_same_forge (Forge exec ρ fuel) (Forge exec' ρ fuel)); [done|].
  intros cmd' desc'. apply IH. intros rest.
  rewrite <- !app_assoc. apply (Hsame ([cmd'] ++ rest)).
Qed.

Lemma Forge_asks_only_below_its_chain_witness :
  (∀ rest, execNetwork (["docker"] ++ ["network"] ++ rest)
           = answers [ (["docker"; "network"; "--help"], helpNetwork);
                       (["docker"; "network"; "connect"; "--help"], helpConnect);
                       (["docker"; "network"; "create"; "--help"], helpCreate);
                       (["docker"; "rm"; "--help"], helpRm) ]
               (["docker"] ++ ["network"] ++ rest))
  ∧ Forge execNetwork inOrder 2 "network" ["docker"] ""
    = Forge (answers [ (["docker"; "network"; "--help"], helpNetwork);
                       (["docker"; "network"; "connect"; "--help"], helpConnect);
                       (["docker"; "network"; "create"; "--help"], helpCreate);
                       (["docker"; "rm"; "--help"], helpRm) ])
        inOrder 2 "network" ["docker"] "".
Proof.
  assert (H : ∀ rest, execNetwork (["docker"] ++ ["network"] ++ rest)
           = answers [ (["docker"; "network"; "--help"], helpNetwork);
                       (["docker"; "network"; "connect"; "--help"], helpConnect);
                       (["docker"; "network"; "create"; "--help"], helpCreate);
                       (["docker"; "rm"; "--help"], helpRm) ]
               (["docker"] ++ ["network"] ++ rest)).
  { intros rest. unfold execNetwork. cbn [answers app].
    repeat (case_decide; [reflexivity|]). case_decide; [congruence | reflexivity]. }
  split; [exact H|]. exact (Forge_asks_only_below_its_chain _ _ inOrder 2 _ _ "" H).
Defined.

(** X16 (leaves): when the help text has no subcommand section, [Forge]
    makes no recursive call: with any fuel left it returns, with the result
    it has with the least fuel, and the node has no subcommand. *)
Theorem Forge_leaf_needs_no_recursion
    (exec : list string → output) (ρ : RangeOrder) (fuel : nat) (cmd : string)
    (chain : list string) (desc msg : string) :
  range_ok ρ →
  exec (chain ++ [cmd] ++ ["--help"]) = Output msg →
  scanHelpMessage msg subcommandMarkers = ∅ →
  Forge exec ρ (S fuel) cmd chain desc = Forge exec ρ 1 cmd chain desc
  ∧ Forge exec ρ 1 cmd chain desc ≠ OutOfFuel
  ∧ ∀ node oe, Forge exec ρ 1 cmd chain desc = Ret (Some node, oe) → Subcommands node = [].
Proof.
  intros Hρ He Hs.
  assert (Hf : ∀ n, Forge exec ρ (S n) cmd chain desc
               = (pairs ← optionPairs ρ (newCommand (chain ++ [cmd]) desc msg);
                  Ret (Some (mkCommand (chain ++ [cmd]) desc
                               (Arguments (setArgument ρ (newCommand (chain ++ [cmd]) desc msg)))
                               (optionsLoop (Join (chain ++ [cmd]) " ") pairs []).1 [] msg),
                       (optionsLoop (Join (chain ++ [cmd]) " ") pairs []).2))).
  { intros n. rewrite Forge_unfold, He. cbn zeta.
    destruct (optionPairs ρ _) as [pairs| |]; [|done..]. cbn [mbind outcome_bind].
    destruct (optionsLoop _ pairs []) as [options [e|]]; [done|].
    by rewrite subcommandPairs_no_group. }
  split_and!.
  - by rewrite !Hf.
  - rewrite Hf. rewrite optionPairs_group by done. by destruct (fitsColumn _ _).
  - intros node oe. rewrite Hf.
    destruct (optionPairs ρ _) as [pairs| |]; [|done..]. cbn [mbind outcome_bind].
    by intros [= <- _].
Qed.

Lemma Forge_leaf_needs_no_recursion_witness :
  range_ok inOrder
  ∧ execRm (["docker"] ++ ["rm"] ++ ["--help"]) = Output helpRm
  ∧ scanHelpMessage helpRm subcommandMarkers = ∅
  ∧ Forge execRm inOrder 6 "rm" ["docker"] "" = Forge execRm inOrder 1 "rm" ["docker"] "".
Proof.
  assert (H : scanHelpMessage helpRm subcommandMarkers = ∅) by (vm_compute; reflexivity).
  split; [exact range_ok_inOrder|]. split; [reflexivity|]. split; [exact H|].
  exact (proj1 (Forge_leaf_needs_no_recursion execRm inOrder 5 "rm" ["docker"] "" helpRm
                  range_ok_inOrder eq_refl H)).
Defined.

(** X17 (no marker, bare node): when no line of the help text begins with a
    marker (as when the process prints nothing), [Forge] returns the bare
    node: chain, description and text, an empty mask, no option, no
    subcommand, and no error. *)
Theorem Forge_without_markers_returns_bare_node
    (exec : list string → output) (ρ : RangeOrder) (fuel : nat) (cmd : string)
    (chain : list string) (desc msg : string) :
  range_ok ρ →
  exec (chain ++ [cmd] ++ ["--help"]) = Output msg →
  Forall (fun line => hitMarker (["Usage:"; "Options:"] ++ subcommandMarkers) line = None)
         (scannerLines msg) →
  Forge exec ρ (S fuel) cmd chain desc
  = Ret (Some (newCommand (chain ++ [cmd]) desc msg), None).
Proof.
  intros Hρ He Hall.
  assert (Hscan : ∀ markers, markers ⊆ ["Usage:"; "Options:"] ++ subcommandMarkers →
            scanHelpMessage msg markers = ∅).
  { intros markers Hsub. apply scanHelpMessage_no_marker.
    eapply Forall_impl; [exact Hall|]. intros line. by apply hitMarker_sublist. }
  assert (Hsub : ∀ markers : list string,
            forallb (fun m => bool_decide (m ∈ ["Usage:"; "Options:"] ++ subcommandMarkers))
                    markers = true →
            markers ⊆ ["Usage:"; "Options:"] ++ subcommandMarkers).
  { intros markers Hb m Hm. rewrite forallb_forall in Hb.
    apply list_elem_of_In in Hm. by apply Hb, bool_decide_eq_true in Hm. }
  rewrite Forge_unfold, He. cbn zeta.
  rewrite setArgument_Arguments by done. cbn [helpMessage newCommand Arguments].
  unfold groupOf. rewrite (Hscan ["Usage:"]) by (by apply Hsub).
  rewrite lookup_empty. cbn [default from_option id classifyLines].
  rewrite optionPairs_group by done. cbn [helpMessage newCommand]. unfold groupOf.
  rewrite (Hscan ["Options:"]) by (by apply Hsub).
  rewrite lookup_empty. cbn [default from_option id].
  rewrite fitsColumn_nil. cbn [mbind outcome_bind cutGroup fmap list_fmap optionsLoop].
  rewrite subcommandPairs_no_group; [reflexivity | done |].
  cbn [helpMessage newCommand]. apply Hscan. by apply Hsub.
Qed.

Lemma Forge_without_markers_returns_bare_node_witness :
  range_ok inOrder
  ∧ answers [ (["docker"; "version"; "--help"], "") ] (["docker"] ++ ["version"] ++ ["--help"])
    = Output ""
  ∧ Forge (answers [ (["docker"; "version"; "--help"], "") ]) inOrder 1 "version" ["docker"]
      "Show the version"
    = Ret (Some (newCommand (["docker"] ++ ["version"]) "Show the version" ""), None).
Proof.
  split; [exact range_ok_inOrder|]. split; [reflexivity|].
  apply (Forge_without_markers_returns_bare_node _ inOrder 0 "version" ["docker"]);
    [exact range_ok_inOrder | reflexivity | constructor].
Defined.

(** ** [Completion], [traverse] and [main] *)

Lemma subcommandLines_returns quote chainString subcommands s :
  Forall (fun sc => Chain sc ≠ []) subcommands →
  ∃ out, subcommandLines quote chainString subcommands s = Ret out.
Proof.
  intros Hall. revert s. induction Hall as [|sc rest Hsc Hrest IH]; intros s; [by eexists|].
  cbn [subcommandLines]. destruct (last (Chain sc)) as [name|] eqn:El; [apply IH|].
  apply last_None in El. done.
Qed.

Lemma subcommandLines_panics quote chainString subcommands s :
  Exists (fun sc => Chain sc = []) subcommands →
  subcommandLines quote chainString subcommands s = Panic.
Proof.
  intros Hex. revert s. induction Hex as [sc rest Hsc | sc rest Hrest IH]; intros s.
  - cbn [subcommandLines]. by rewrite Hsc.
  - cbn [subcommandLines]. destruct (last (Chain sc)); [apply IH | done].
Qed.

(** X18 (the index into the chain): [Completion] panics exactly when some
    subcommand of the node has an empty chain, the index
    [len(sc.Chain)-1] being then out of range; otherwise it returns. *)
Theorem Completion_panics_iff_empty_chain
    (quote : string → string) (ρ : RangeOrder) (c : Command) :
  (Forall (fun sc => Chain sc ≠ []) (Subcommands c)
   ∧ ∃ out, Completion quote ρ c = Ret out)
  ∨ (Exists (fun sc => Chain sc = []) (Subcommands c)
     ∧ Completion quote ρ c = Panic).
Proof.
  unfold Completion.
  destruct (decide (Forall (fun sc => Chain sc ≠ []) (Subcommands c))) as [Hall | Hnot].
  - left. split; [done|].
    destruct (subcommandLines_returns quote (ChainString c) (Subcommands c)
                (foldl (argumentStep quote c) "" (rangeMap ρ ArgumentsMap)) Hall) as [out ->].
    by eexists.
  - right. apply not_Forall_Exists in Hnot; [|intros sc; apply _].
    assert (Hex : Exists (fun sc => Chain sc = []) (Subcommands c)).
    { eapply Exists_impl; [exact Hnot|]. intros sc Hsc. cbn in Hsc.
      by destruct (decide (Chain sc = [])). }
    split; [done|]. by rewrite subcommandLines_panics.
Qed.

Lemma Completion_returns quote ρ c :
  childrenExtendChain c → ∃ out, Completion quote ρ c = Ret out.
Proof.
  intros Hc. unfold Completion.
  destruct (subcommandLines_returns quote (ChainString c) (Subcommands c)
              (foldl (argumentStep quote c) "" (rangeMap ρ ArgumentsMap))) as [out ->];
    [|by eexists].
  eapply Forall_impl; [exact Hc|]. intros sc [name Hn] Hnil.
  rewrite Hnil in Hn. by destruct (Chain c).
Qed.

Lemma traverse_returns quote ρ c :
  treeAll childrenExtendChain c → ∃ out, traverse quote ρ c = Ret out.
Proof.
  induction c as [c IH] using Command_tree_ind. intros Ht.
  apply treeAll_unfold in Ht as [Hc Hsubs].
  destruct (Completion_returns quote ρ c Hc) as [s Es].
  destruct c as [chain desc number options subs msg]. cbn [Subcommands] in *.
  cbn [traverse]. rewrite Es. cbn [mbind outcome_bind].
  clear Es Hc. revert s. induction subs as [|sc subs IHsubs]; intros s; [by eexists|].
  inversion IH as [|? ? Hsc IH']; subst. inversion Hsubs as [|? ? Htsc Hsubs']; subst.
  destruct (Hsc Htsc) as [t Et]. rewrite Et. cbn [mbind outcome_bind].
  by apply IHsubs.
Qed.

(** X19 (rendering a built tree): [traverse] returns on every tree [Forge]
    returns, for every order of the loops over maps: no [Completion] in it
    indexes an empty chain. *)
Theorem traverse_returns_on_forged_tree
    (quote : string → string) (exec : list string → output) (ρ ρ' : RangeOrder)
    (fuel : nat) (cmd : string) (chain : list string) (desc : string)
    (node : Command) (oe : option error) :
  Forge exec ρ fuel cmd chain desc = Ret (Some node, oe) →
  ∃ out, traverse quote ρ' node = Ret out.
Proof.
  intros E. apply traverse_returns.
  apply Forge_tree in E. eapply treeAll_impl; [|exact E]. by intros c (H & _).
Qed.

Lemma traverse_returns_on_forged_tree_witness :
  Forge execRm inOrder 1 "rm" ["docker"] ""
  = Ret (Some (mkCommand ["docker"; "rm"] "" ArgumentNumberDockerContainer
                 [Option.Build "Force the removal" "force" "f"] [] helpRm), None)
  ∧ ∃ out, traverse (fun s => s) backwards
             (mkCommand ["docker"; "rm"] "" ArgumentNumberDockerContainer
                [Option.Build "Force the removal" "force" "f"] [] helpRm) = Ret out.
Proof.
  assert (H : Forge execRm inOrder 1 "rm" ["docker"] ""
              = Ret (Some (mkCommand ["docker"; "rm"] "" ArgumentNumberDockerContainer
                             [Option.Build "Force the removal" "force" "f"] [] helpRm), None))
    by (vm_compute; reflexivity).
  split; [exact H|].
  exact (traverse_returns_on_forged_tree (fun s => s) _ _ backwards _ _ _ _ _ _ H).
Defined.

(** X20 ([main]): when the building of the tree returns, [main] ends without
    panic: with [log.Fatal] on the error and nothing printed, whether or
    not a node came with the error, or else with the two functions, the two
    fixed lines and the rendering of the whole tree printed. *)
Theorem main_ends_with_error_or_output
    (quote : string → string) (ρ : RangeOrder) (exec : list string → output)
    (fuel : nat) (oc : option Command) (oe : option error) :
  Forge exec ρ fuel "docker" [] "" = Ret (oc, oe) →
  (∃ err, oe = Some err ∧ main quote ρ exec fuel = Ret (Fatal err))
  ∨ (∃ node out, oc = Some node ∧ oe = None
                 ∧ traverse quote ρ node = Ret out
                 ∧ main quote ρ exec fuel
                   = Ret (Printed (FishDockerCommandChainSatisfies +:+ nl
                                   +:+ FishDockerCommandChainExactlyMatches +:+ nl
                                   +:+ "complete -c docker -f" +:+ nl
                                   +:+ "complete -c docker -l help -d 'Print usage'" +:+ nl
                                   +:+ out))).
Proof.
  intros E. unfold main. rewrite E. cbn [mbind outcome_bind].
  destruct oe as [err|]; [left; exists err; by destruct oc|]. right.
  destruct oc as [node|]; [|by apply Forge_node_or_error in E].
  assert (Ht : treeAll childrenExtendChain node).
  { apply Forge_tree in E. eapply treeAll_impl; [|exact E]. by intros c (H & _). }
  destruct (traverse_returns quote ρ node Ht) as [out Et].
  exists node, out. rewrite Et. by split_and!.
Qed.

Lemma main_ends_with_error_or_output_witness :
  Forge execContinuationFirst inOrder 1 "docker" [] ""
  = Ret (Some (mkCommand ["docker"] "" 0 [] [] helpContinuationFirst),
         Some (OptionsError "docker"))
  ∧ main (fun s => s) inOrder execContinuationFirst 1 = Ret (Fatal (OptionsError "docker")).
Proof.
  assert (H : Forge execContinuationFirst inOrder 1 "docker" [] ""
              = Ret (Some (mkCommand ["docker"] "" 0 [] [] helpContinuationFirst),
                     Some (OptionsError "docker"))) by (vm_compute; reflexivity).
  split; [exact H|].
  destruct (main_ends_with_error_or_output (fun s => s) inOrder _ _ _ _ H)
    as [(err & [= <-] & Hm) | (node & out & _ & [=] & _)].
  exact Hm.
Defined.

(** ** The votes of [splitDescription] *)

Lemma descHeadMatches_head s i :
  i ∈ descHeadMatches s 0 ↔ hasHeadAt (S i) s = true.
Proof.
  unfold hasHeadAt. split.
  - intros Hin. destruct (descHeadMatches_sound _ _ _ Hin) as (_ & a & b & Ga & Gb & Ha & Hb).
    rewrite Nat.sub_0_r in Ga, Gb. by rewrite Ga, Gb, Ha, Hb.
  - destruct (String.get i s) as [a|] eqn:Ga; [|discriminate].
    destruct (String.get (S i) s) as [b|] eqn:Gb; [|discriminate].
    intros Hab. apply andb_true_iff in Hab as [Ha Hb].
    by apply (descHeadMatches_complete s 0 i a b).
Qed.

Lemma descHeadMatches_NoDup s j : NoDup (descHeadMatches s j).
Proof.
  remember (String.length s) as n eqn:Hn. revert s j Hn.
  induction (lt_wf n) as [n _ IH]. intros s j ->.
  destruct s as [|a [|b s2]]; [constructor..|].
  rewrite descHeadMatches_cons. destruct (isRegexpSpace a && isUpper b).
  - constructor.
    + intros Hin. apply descHeadMatches_sound in Hin as [Hle _]. lia.
    + apply (IH (String.length s2)); [cbn; lia | done].
  - apply (IH (String.length (String b s2))); [cbn; lia | done].
Qed.

Lemma bump_count (m : gmap nat nat) k k' :
  default 0 (bump m k !! k') = default 0 (m !! k') + (if decide (k' = k) then 1 else 0).
Proof.
  unfold bump. destruct (decide (k' = k)) as [->|Hne].
  - rewrite lookup_insert_eq. cbn. lia.
  - rewrite lookup_insert_ne by done. lia.
Qed.

Lemma tally_count (m : gmap nat nat) idxs k :
  NoDup idxs →
  default 0 (foldl (fun m i => bump m (i + 1)) m idxs !! S k)
  = default 0 (m !! S k) + (if decide (k ∈ idxs) then 1 else 0).
Proof.
  intros Hnd. revert m. induction Hnd as [|i idxs Hi Hnd IH]; intros m.
  - cbn. rewrite decide_False by apply not_elem_of_nil. lia.
  - cbn [foldl]. rewrite IH, bump_count.
    destruct (decide (k = i)) as [->|Hne].
    + rewrite (decide_True (P := S i = i + 1)) by lia.
      rewrite (decide_False (P := i ∈ idxs)) by done.
      rewrite (decide_True (P := i ∈ i :: idxs)) by (by left). lia.
    + rewrite (decide_False (P := S k = i + 1)) by lia.
      destruct (decide (k ∈ idxs)) as [Hin | Hin].
      * rewrite (decide_True (P := k ∈ i :: idxs)) by (by right). lia.
      * rewrite (decide_False (P := k ∈ i :: idxs)); [lia|].
        intros [?|?]%elem_of_cons; done.
Qed.

Lemma tally_zero (m : gmap nat nat) idxs :
  foldl (fun m i => bump m (i + 1)) m idxs !! 0 = m !! 0.
Proof.
  revert m. induction idxs as [|i idxs IH]; intros m; [done|].
  cbn [foldl]. rewrite IH. unfold bump. rewrite lookup_insert_ne by lia. done.
Qed.

Lemma tallyLine_count (m : gmap nat nat) line k :
  default 0 (tallyLine m line !! k)
  = default 0 (m !! k) + (if hasHeadAt k line then 1 else 0).
Proof.
  unfold tallyLine. destruct k as [|k].
  - rewrite tally_zero. cbn. lia.
  - rewrite tally_count by apply descHeadMatches_NoDup.
    destruct (decide (k ∈ descHeadMatches line 0)) as [Hin | Hin].
    + apply descHeadMatches_head in Hin. by rewrite Hin.
    + destruct (hasHeadAt (S k) line) eqn:Hh; [|done].
      by apply descHeadMatches_head in Hh.
Qed.

(** X21 (what a vote is): the votes of a column are the lines of the group
    that have a white-space byte followed by an upper-case letter ending at
    that column; a column no line votes for is not in the map. *)
Theorem descHeadIndices_counts_lines (lines : list string) (k : nat) :
  descHeadIndices lines !! k
  = if decide (linesWithHeadAt k lines = 0) then None else Some (linesWithHeadAt k lines).
Proof.
  assert (Hcount : default 0 (descHeadIndices lines !! k) = linesWithHeadAt k lines).
  { unfold descHeadIndices, linesWithHeadAt.
    assert (Hgen : ∀ m : gmap nat nat,
              default 0 (foldl tallyLine m lines !! k)
              = default 0 (m !! k)
                + length (filter (fun line => hasHeadAt k line = true) lines)).
    { induction lines as [|l ls IH]; intros m; [cbn; lia|].
      cbn [foldl]. rewrite IH, tallyLine_count.
      destruct (hasHeadAt k l) eqn:Hh.
      - rewrite filter_cons_True by done. cbn [length]. lia.
      - rewrite filter_cons_False by (by rewrite Hh). lia. }
    rewrite Hgen, lookup_empty. cbn. lia. }
  destruct (descHeadIndices lines !! k) as [v|] eqn:Hk.
  - pose proof (descHeadIndices_positive lines k v Hk) as Hv. cbn in Hcount, Hv.
    rewrite <- Hcount. by rewrite decide_False by lia.
  - cbn in Hcount. rewrite <- Hcount. by rewrite decide_True.
Qed.

(** ** More on [setSubcommands] and on the chain *)

Lemma subcommandsLoop_continuations forge arg chainString conts rest subcommands sc :
  Forall (fun p => TrimSpace p.1 = "") conts →
  subcommandsLoop forge arg chainString (conts ++ rest) (subcommands ++ [sc])
  = subcommandsLoop forge arg chainString rest
      (subcommands ++ [withDesc sc (foldl (fun acc d => acc +:+ " " +:+ d) (Desc sc)
                                      ((fun p => TrimSpace p.2) <$> conts))]).
Proof.
  intros Hall. revert sc. induction Hall as [|p conts Hp Hconts IH]; intros sc.
  - by destruct sc.
  - cbn [app subcommandsLoop]. rewrite Hp. cbn [String.eqb].
    destruct (subcommands ++ [sc]) as [|x l] eqn:E; [by destruct subcommands|].
    rewrite <- E, updateLast_snoc. rewrite IH. reflexivity.
Qed.

(** X22 (descriptions of subcommands): after [Forge] has returned the node
    of a subcommand, the continuation lines that follow its entry extend
    the description of that node, in order and with single spaces between;
    the loop goes on with the pairs after them. *)
Theorem subcommandsLoop_joins_continuations
    (forge : string → list string → string → outcome forged)
    (arg : list string) (chainString : string) (entry : string * string)
    (conts rest : list (string * string)) (subcommands : list Command) (sc : Command) :
  TrimSpace entry.1 ≠ "" →
  Forall (fun p => TrimSpace p.1 = "") conts →
  forge (TrimSpace entry.1) arg (TrimSpace entry.2) = Ret (Some sc, None) →
  subcommandsLoop forge arg chainString (entry :: conts ++ rest) subcommands
  = subcommandsLoop forge arg chainString rest
      (subcommands ++ [withDesc sc (joinedDesc (Desc sc) conts)]).
Proof.
  intros He Hall Hf. cbn [subcommandsLoop].
  apply String.eqb_neq in He. rewrite He, Hf. cbn [mbind outcome_bind].
  rewrite subcommandsLoop_continuations by done. by rewrite join_accumulate.
Qed.

Lemma subcommandsLoop_joins_continuations_witness :
  TrimSpace ("  run         ", "Run a command").1 ≠ ""
  ∧ subcommandsLoop (Forge execTwoSections inOrder 1) ["docker"] "docker"
      (("  run         ", "Run a command") :: [("              ", "in a new container")] ++ []) []
    = subcommandsLoop (Forge execTwoSections inOrder 1) ["docker"] "docker" []
        ([] ++ [withDesc (mkCommand ["docker"; "run"] "Run a command" 0 [] [] helpLeaf)
                  (joinedDesc (Desc (mkCommand ["docker"; "run"] "Run a command" 0 [] [] helpLeaf))
                     [("              ", "in a new container")])]).
Proof.
  assert (H1 : TrimSpace ("  run         ", "Run a command").1 ≠ "")
    by (vm_compute; discriminate).
  split; [exact H1|].
  apply (subcommandsLoop_joins_continuations _ ["docker"] "docker" _ _ [] [] _ H1).
  - repeat constructor.
  - vm_compute. reflexivity.
Defined.

Lemma Join_snoc (l : list string) (x sep : string) :
  l ≠ [] → Join (l ++ [x]) sep = Join l sep +:+ sep +:+ x.
Proof.
  unfold Join. induction l as [|y l IH]; intros Hne; [done|].
  destruct l as [|z l]; [reflexivity|].
  change ((y :: z :: l) ++ [x]) with (y :: (z :: l) ++ [x]).
  cbn [String.concat app]. cbn [String.concat app] in IH.
  rewrite IH by done. by rewrite !append_assoc.
Qed.

(** X23 (chain string): the chain string of the node [Forge] builds under a
    non-empty chain is the chain string of the parent, a space, and the
    name: the text [setArgument] wants in front of each usage line. *)
Theorem Forge_chain_string
    (exec : list string → output) (ρ : RangeOrder) (fuel : nat) (cmd : string)
    (chain : list string) (desc : string) (node : Command) (oe : option error) :
  chain ≠ [] →
  Forge exec ρ fuel cmd chain desc = Ret (Some node, oe) →
  ChainString node = Join chain " " +:+ " " +:+ cmd.
Proof.
  intros Hne E. unfold ChainString. rewrite (Forge_Chain _ _ _ _ _ _ _ _ E).
  by apply Join_snoc.
Qed.

Lemma Forge_chain_string_witness :
  ["docker"] ≠ []
  ∧ ChainString (mkCommand ["docker"; "rm"] "" ArgumentNumberDockerContainer
                   [Option.Build "Force the removal" "force" "f"] [] helpRm)
    = Join ["docker"] " " +:+ " " +:+ "rm".
Proof.
  assert (H1 : ["docker"] ≠ ([] : list string)) by discriminate.
  split; [exact H1|].
  apply (Forge_chain_string execRm inOrder 1 "rm" ["docker"] "" _ None H1).
  vm_compute. reflexivity.
Defined.

(** ** A line beyond the token limit *)

(** X24 (a line beyond the token limit): the scanner stops without a word at
    a line of [bufio.MaxScanTokenSize] bytes or more, and the loop of
    [scanHelpMessage] never looks at its error: the sections are those of
    the lines before that line, whatever follows it. *)
Theorem scanHelpMessage_stops_at_oversized_line
    (lines : list string) (long rest : string) (markers : list string) :
  forallb plainLine lines = true →
  freeOf newline long = true →
  tooLong long = true →
  scannerLines (unlines lines +:+ long +:+ nl +:+ rest) = lines
  ∧ scanHelpMessage (unlines lines +:+ long +:+ nl +:+ rest) markers
    = scanHelpMessage (unlines lines) markers.
Proof.
  intros Hall Hfree Hlong.
  assert (E : scannerLines (unlines lines +:+ long +:+ nl +:+ rest) = lines).
  { unfold scannerLines. rewrite scanLinesFrom_plain by done.
    rewrite scanLinesFrom_line by done. rewrite append_nil_l, Hlong. apply app_nil_r. }
  assert (E' : scannerLines (unlines lines) = lines).
  { unfold scannerLines.
    rewrite <- (append_nil_r (unlines lines)), scanLinesFrom_plain by done.
    cbn [scanLinesFrom]. apply app_nil_r. }
  split; [exact E|]. unfold scanHelpMessage. by rewrite E, E'.
Qed.

Lemma scanHelpMessage_stops_at_oversized_line_witness :
  forallb plainLine ["Options:"; "-a  Alpha"] = true
  ∧ tooLong (replicateByte (N.to_nat 65536) "x") = true
  ∧ scanHelpMessage (unlines ["Options:"; "-a  Alpha"]
                     +:+ replicateByte (N.to_nat 65536) "x" +:+ nl +:+ "-b  Beta")
      ["Options:"]
    = scanHelpMessage (unlines ["Options:"; "-a  Alpha"]) ["Options:"].
Proof.
  assert (H1 : forallb plainLine ["Options:"; "-a  Alpha"] = true) by reflexivity.
  assert (H2 : freeOf newline (replicateByte (N.to_nat 65536) "x") = true)
    by (vm_compute; reflexivity).
  assert (H3 : tooLong (replicateByte (N.to_nat 65536) "x") = true)
    by (vm_compute; reflexivity).
  split; [exact H1|]. split; [exact H3|].
  exact (proj2 (scanHelpMessage_stops_at_oversized_line _ _ "-b  Beta" ["Options:"] H1 H2 H3)).
Defined.
